(** * Task orchestration engine of agentic-direct: a shallow embedding

    The development follows the TypeScript and JavaScript sources:
    - [types/index.ts]: Message, Task, TaskStatus, ExecutionContext, EventBus;
    - [a2a/executor.ts] (the variant driven by the router's own EventBus):
      plan normalisation, placeholder substitution, the step loop, the
      messages it publishes;
    - [a2a/router.ts] (the variant that keeps its own task map): JSON-RPC
      dispatch, task creation, the per-task event bus, get and cancel;
    - the browser clients: [pollTask] with its attempt bound and
      [startTaskPolling] built on [setInterval].

    Everything the code obtains from outside the repository (the uuid
    generator, the wall clock, the planner service, the tool registry,
    [JSON.parse]) is a field of the record [World]; every definition that
    needs one takes the world as its first argument. *)

From stdpp Require Import gmap strings list fin_maps pretty.
From Equations Require Import Equations.

Local Open Scope string_scope.
Local Open Scope list_scope.

(** ** JavaScript values *)

Module JS.

(** Values of type [any] that come out of [JSON.parse]: tool parameters,
    tool results, data fragments, request ids.  Numbers are restricted to
    integers; [undefined] is the [None] of an [option JSON]. *)
#[warnings="-register-all"]
Inductive JSON : Type :=
| JNull
| JBool (b : bool)
| JNum (z : Z)
| JStr (s : string)
| JArr (l : list JSON)
| JObj (m : gmap string JSON).

(** ToBoolean: [null], [false], [0] and the empty string are falsy. *)
Definition truthy (v : JSON) : bool :=
  match v with
  | JNull => false
  | JBool b => b
  | JNum z => negb (z =? 0)%Z
  | JStr s => negb (String.eqb s "")
  | JArr _ | JObj _ => true
  end.

(** ToBoolean of a possibly [undefined] value. *)
Definition truthy_opt (o : option JSON) : bool := from_option truthy false o.

(** ToBoolean of a possibly [undefined] string. *)
Definition truthy_str (o : option string) : bool :=
  from_option (λ s, negb (String.eqb s "")) false o.

(** [v.k] for a key that is no built-in property of strings, arrays,
    numbers or booleans (here: [id]): only objects can carry it. *)
Definition prop (k : string) (v : JSON) : option JSON :=
  match v with
  | JObj m => m !! k
  | _ => None
  end.

(** The own enumerable properties of an array-like: index [i] under the
    key that prints [i] in decimal. *)
Definition index_keys (l : list JSON) : gmap string JSON :=
  list_to_map (imap (λ i v, (pretty i, v)) l).

(** A [string] holds the UTF-8 bytes of a JavaScript string, whose
    elements are UTF-16 code units.  [three_bytes u] is the three-byte
    form of the code point [u]; a lone surrogate is written that way. *)
Definition three_bytes (u : N) : string :=
  String.string_of_list_ascii
    [ Ascii.ascii_of_N (224 + N.shiftr u 12);
      Ascii.ascii_of_N (128 + N.land (N.shiftr u 6) 63);
      Ascii.ascii_of_N (128 + N.land u 63) ].

(** The two surrogates of the code point a four-byte sequence encodes. *)
Definition surrogates (b0 b1 b2 b3 : Ascii.ascii) : list string :=
  let cp :=
    N.lor (N.shiftl (N.land (Ascii.N_of_ascii b0) 7) 18)
      (N.lor (N.shiftl (N.land (Ascii.N_of_ascii b1) 63) 12)
         (N.lor (N.shiftl (N.land (Ascii.N_of_ascii b2) 63) 6)
            (N.land (Ascii.N_of_ascii b3) 63))) in
  [ three_bytes (55296 + N.shiftr (cp - 65536) 10);
    three_bytes (56320 + N.land (cp - 65536) 1023) ].

(** The code units of a string, each as a string of its own: a sequence
    of one, two or three bytes is one unit, a sequence of four bytes is
    two.  A byte that starts no complete sequence is a unit of its
    own. *)
Fixpoint code_units (l : list Ascii.ascii) : list string :=
  match l with
  | [] => []
  | b0 :: rest =>
      let alone := String b0 EmptyString :: code_units rest in
      if N.ltb (Ascii.N_of_ascii b0) 192 then alone
      else if N.ltb (Ascii.N_of_ascii b0) 224 then
        match rest with
        | b1 :: rest1 =>
            String.string_of_list_ascii [b0; b1] :: code_units rest1
        | _ => alone
        end
      else if N.ltb (Ascii.N_of_ascii b0) 240 then
        match rest with
        | b1 :: b2 :: rest2 =>
            String.string_of_list_ascii [b0; b1; b2] :: code_units rest2
        | _ => alone
        end
      else
        match rest with
        | b1 :: b2 :: b3 :: rest3 =>
            surrogates b0 b1 b2 b3 ++ code_units rest3
        | _ => alone
        end
  end.

(** [{ ...v }]: an object spreads to its own properties, an array to its
    indexed elements, a string to its indexed code units, everything
    else (and [undefined]) to the empty object. *)
Definition spread (o : option JSON) : gmap string JSON :=
  match o with
  | Some (JObj m) => m
  | Some (JArr l) => index_keys l
  | Some (JStr s) =>
      index_keys (JStr <$> code_units (String.list_ascii_of_string s))
  | _ => ∅
  end.

(** [a || b] on possibly [undefined] values. *)
Definition or_else (a : option JSON) (b : JSON) : JSON :=
  match a with
  | Some v => if truthy v then v else b
  | None => b
  end.

(** [a ?? b]: only [undefined] and [null] give way to [b]. *)
Definition nullish_else (a : option JSON) (b : JSON) : JSON :=
  match a with
  | Some JNull | None => b
  | Some v => v
  end.

(** The line feed used by the template literals. *)
Definition nl : string := String (Ascii.ascii_of_nat 10) EmptyString.

End JS.
Export JS.

(** ** types/index.ts *)

Inductive Role := user | agent.

#[export] Instance Role_eq_dec : EqDecision Role.
Proof. solve_decision. Defined.

(** [Part]: the text and data fragments the code builds and reads, and the
    file fragment of the SDK type. *)
Inductive Part :=
| TextPart (text : string)
| DataPart (data : JSON)
| FilePart (file : JSON).

(** [Message]; the constant field [kind: 'message'] is left out.  The
    router accepts any truthy [message], so one can arrive, and sit in a
    history, without its [parts] array: [parts] is then [None]. *)
Record Message := {
  messageId : string;
  role : Role;
  parts : option (list Part);
  msg_contextId : option string;
  msg_taskId : option string;
  msg_timestamp : option string
}.

(** The values of [status.state] this code writes and tests. *)
Inductive TaskState := working | completed | failed | canceled.

#[export] Instance TaskState_eq_dec : EqDecision TaskState.
Proof. solve_decision. Defined.

(** [TaskStatus], with [message] the failure reason as a string. *)
Record TaskStatus := {
  state : TaskState;
  timestamp : string;
  message : option string
}.

(** [Task]; the constant field [kind: 'task'] is left out. *)
Record Task := {
  task_id : string;
  contextId : string;
  status : TaskStatus;
  history : list Message
}.

Definition terminal (s : TaskState) : bool :=
  match s with
  | working => false
  | completed | failed | canceled => true
  end.

(** [ExecutionContext] *)
Record ExecutionContext := {
  ctx_message : Message;
  ctx_contextId : string;
  ctx_taskId : string
}.

(** The two calls of the [EventBus] interface, as data. *)
Inductive BusEvent :=
| Publish (event : Message)
| Finished.

(** ** The outside world *)

(** What [mcpServer.callTool] resolves to. *)
Record ContentItem := { type : string; text : string }.
Record MCPResponse := { content : list ContentItem }.

(** One planned tool invocation, and the planner's answer as
    [selectToolWithAI] declares it. *)
Record Step := { toolName : string; toolParams : option JSON }.

Record PlanResponse := {
  plan_toolName : string;
  plan_toolParams : option JSON;
  steps : option (list Step)
}.

(** The collaborators the engine calls but does not implement.  A thrown
    error is its [message] string, on the left of a sum.
    - [uuidv4 k]: the k-th identifier drawn by the router;
    - [toISOString k]: the k-th reading of the clock by the router;
    - [selectToolWithAI text]: the outcome of the planner call (the OpenAI
      request followed by [JSON.parse]);
    - [callTool k name args]: the outcome of the k-th tool invocation;
    - [JSON_parse]: [None] when [JSON.parse] throws;
    - [newMessageId k], [newTimestamp k]: the random id and the clock
      reading for the k-th message an execution creates. *)
Record World := {
  uuidv4 : nat → string;
  toISOString : nat → string;
  selectToolWithAI : string → string + PlanResponse;
  callTool : nat → string → gmap string JSON → string + MCPResponse;
  JSON_parse : string → option JSON;
  newMessageId : nat → string;
  newTimestamp : nat → string
}.

(** ** a2a/executor.ts *)

(** The executor exists in two variants, one written against the SDK's
    event bus and one against the router's own.  They differ in
    bookkeeping only (the [activeTasks] set, the [timestamp] of a
    message); plan normalisation, placeholder substitution, the step loop
    and the messages published are the same text.  The embedding follows
    the variant the router below drives. *)

Module Executor.

Definition PREVIOUS_RESULT_ID : string := "__PREVIOUS_RESULT_ID__".

(** [v === '__PREVIOUS_RESULT_ID__'] *)
Definition is_placeholder (v : JSON) : bool :=
  match v with
  | JStr s => String.eqb s PREVIOUS_RESULT_ID
  | _ => false
  end.

(** The body of the [for (const key in params)] loop, at one key. *)
Definition link (previousId : JSON) (v : JSON) : JSON :=
  if is_placeholder v then previousId else v.

(** The guard [previousResult && previousResult.id]. *)
Definition has_id (prev : JSON) : bool :=
  truthy prev && truthy_opt (prop "id" prev).

(** "Replace placeholders with actual results from previous steps":
    [if (previousResult && previousResult.id) { for (key in params) ... }].
    [previousResult] starts as [null], here [None]. *)
Definition substitute (previousResult : option JSON)
    (params : gmap string JSON) : gmap string JSON :=
  match previousResult with
  | Some prev =>
      if has_id prev
      then link (default JNull (prop "id" prev)) <$> params
      else params
  | None => params
  end.

(** The response object itself, returned when it has no text content. *)
Definition response_value (response : MCPResponse) : JSON :=
  JObj {[ "content" :=
    JArr ((λ c, JObj (<["type" := JStr (type c)]> {[ "text" := JStr (text c) ]}))
            <$> content response) ]}.

(** [executeTool]: the k-th call of the tool registry.  A rejection is
    rethrown with the prefix; a text content is parsed as JSON, or kept as
    a string when it does not parse. *)
Definition executeTool (W : World) (k : nat) (name : string)
    (params : gmap string JSON) : string + JSON :=
  match callTool W k name params with
  | inl err => inl ("Tool execution failed: " +:+ err)
  | inr response =>
      inr match content response with
          | textContent :: _ =>
              if String.eqb (type textContent) "text"
              then default (JStr (text textContent))
                           (JSON_parse W (text textContent))
              else response_value response
          | [] => response_value response
          end
  end.

Definition text_of (p : Part) : option string :=
  match p with
  | TextPart t => Some t
  | _ => None
  end.

Definition data_of (p : Part) : option JSON :=
  match p with
  | DataPart d => Some d
  | _ => None
  end.

(** [extractTextFromMessage]: [None] when [message.parts.filter] throws,
    that is, on a message without a parts array. *)
Definition extractTextFromMessage (m : Message) : option string :=
  (λ ps, String.concat " " (omap text_of ps)) <$> parts m.

(** The message of the TypeError thrown then. *)
Definition no_parts : string :=
  "Cannot read properties of undefined (reading 'filter')".

(** [createAgentMessage], for the k-th message of an execution: the data
    fragment is pushed only [if (data)]. *)
Definition createAgentMessage (W : World) (k : nat) (text : string)
    (data : JSON) (contextId taskId : string) : Message :=
  {| messageId := newMessageId W k;
     role := agent;
     parts :=
       Some (TextPart text :: (if truthy data then [DataPart data] else []));
     msg_contextId := Some contextId;
     msg_taskId := Some taskId;
     msg_timestamp := Some (newTimestamp W k) |}.

(** The local state of [execute]: the [results] array, the tool calls made
    so far and the messages handed to [eventBus.publish] so far. *)
Record Acc := {
  results : list (string * JSON);
  calls : list (string * gmap string JSON);
  published : list Message
}.

Definition start : Acc := {| results := []; calls := []; published := [] |}.

(** [`Step ${i + 1}/${steps.length}: Successfully executed ${step.toolName}`] *)
Definition stepText (i n : nat) (name : string) : string :=
  "Step " +:+ pretty (i + 1) +:+ "/" +:+ pretty n
    +:+ ": Successfully executed " +:+ name.

(** The [for] loop over the steps from index [i] on, [n] being
    [steps.length].  It returns the state it reached and the error that
    interrupted it, if any. *)
Fixpoint loop (W : World) (ctx : ExecutionContext) (n i : nat)
    (rest : list Step) (previousResult : option JSON) (a : Acc)
    : Acc * option string :=
  match rest with
  | [] => (a, None)
  | step :: rest' =>
      let params := substitute previousResult (spread (toolParams step)) in
      let called := calls a ++ [(toolName step, params)] in
      match executeTool W (length (calls a)) (toolName step) params with
      | inl err =>
          ({| results := results a; calls := called;
              published := published a |}, Some err)
      | inr result =>
          let stepMessage :=
            createAgentMessage W (length (published a))
              (stepText i n (toolName step)) result
              (ctx_contextId ctx) (ctx_taskId ctx) in
          loop W ctx n (S i) rest' (Some result)
            {| results := results a ++ [(toolName step, result)];
               calls := called;
               published :=
                 if bool_decide (1 < n) then published a ++ [stepMessage]
                 else published a |}
      end
  end.

(** The tool calls of [loop] on their own: the k-th call and, when it
    succeeds, the calls of the remaining steps. *)
Fixpoint trace (W : World) (k : nat) (rest : list Step)
    (previousResult : option JSON) : list (string * gmap string JSON) :=
  match rest with
  | [] => []
  | step :: rest' =>
      let params := substitute previousResult (spread (toolParams step)) in
      (toolName step, params) ::
      match executeTool W k (toolName step) params with
      | inl _ => []
      | inr result => trace W (S k) rest' (Some result)
      end
  end.

(** [planResponse.steps || [{ toolName, toolParams }]] *)
Definition normalize (planResponse : PlanResponse) : list Step :=
  default [ {| toolName := plan_toolName planResponse;
               toolParams := plan_toolParams planResponse |} ]
          (steps planResponse).

(** What one execution did: the tool calls, the calls on the event bus in
    order, and the reason of the rejection of the returned promise. *)
Record Run := {
  invoked : list (string * gmap string JSON);
  events : list BusEvent;
  rejected : option string
}.

(** The [catch] branch: publish the error message, then [finished()]. *)
Definition failure (W : World) (ctx : ExecutionContext) (a : Acc)
    (err : string) : Run :=
  {| invoked := calls a;
     events :=
       (Publish <$> published a) ++
       [Publish (createAgentMessage W (length (published a))
                   ("Error: " +:+ err) JNull
                   (ctx_contextId ctx) (ctx_taskId ctx));
        Finished];
     rejected := None |}.

(** [{ tool, result }] of the [results] array, as a value. *)
Definition result_value (tr : string * JSON) : JSON :=
  JObj (<["tool" := JStr tr.1]> {[ "result" := tr.2 ]}).

(** The summary text of "Step 3: Publish final summary". *)
Definition summary (steps : list Step) (first : Step) : string :=
  if bool_decide (1 < length steps)
  then "Successfully completed " +:+ pretty (length steps) +:+ " steps:"
         +:+ nl +:+
         String.concat nl
           (imap (λ i s, pretty (i + 1) +:+ ". " +:+ toolName s) steps)
  else "Successfully executed " +:+ toolName first.

(** The message thrown by [steps[0].toolName] on an empty [steps]. *)
Definition no_first_step : string :=
  "Cannot read properties of undefined (reading 'toolName')".

(** [execute(context, eventBus)].  The text of the message is extracted
    before the [try] block: when that throws, nothing is published,
    [finished()] is not called and the returned promise is rejected with
    the TypeError.  Every later statement that can throw (the planner
    call, a tool call, [steps[0].toolName]) sits inside the [try] block
    and the [catch] block throws nothing, so on those paths the promise
    is fulfilled. *)
Definition execute (W : World) (ctx : ExecutionContext) : Run :=
  match extractTextFromMessage (ctx_message ctx) with
  | None => {| invoked := []; events := []; rejected := Some no_parts |}
  | Some userMessage =>
      match selectToolWithAI W userMessage with
      | inl err => failure W ctx start err
      | inr planResponse =>
          let steps := normalize planResponse in
          match loop W ctx (length steps) 0 steps None start with
          | (a, Some err) => failure W ctx a err
          | (a, None) =>
              match steps with
              | [] => failure W ctx a no_first_step
              | first :: _ =>
                  let data :=
                    if bool_decide (length steps = 1)
                    then default JNull (snd <$> head (results a))
                    else JArr (result_value <$> results a) in
                  let finalMessage :=
                    createAgentMessage W (length (published a))
                      (summary steps first) data
                      (ctx_contextId ctx) (ctx_taskId ctx) in
                  {| invoked := calls a;
                     events :=
                       (Publish <$> published a) ++
                       [Publish finalMessage; Finished];
                     rejected := None |}
              end
          end
      end
  end.

End Executor.

(** ** a2a/router.ts *)

Module Router.

(** The fields the handlers destructure from [params]. *)
Record Params := {
  p_message : option Message;
  p_contextId : option string;
  p_taskId : option string
}.

Record JSONRPCRequest := {
  jsonrpc : option JSON;
  method : option string;
  params : option Params;
  req_id : option JSON
}.

(** What a handler throws: the object built by [createRPCError], or the
    TypeError of destructuring an [undefined] [params]. *)
Inductive Thrown :=
| RPCError (code : Z) (msg : string)
| TypeError (msg : string).

Definition createRPCError (code : Z) (msg : string) : Thrown :=
  RPCError code msg.

(** The body handed to [res.json], with the HTTP status; [result] is the
    task as it is serialised at that moment. *)
Record JSONRPCResponse := {
  http_status : nat;
  result : option Task;
  error : option Thrown;
  resp_id : JSON
}.

(** The router's memory.  Task objects live in [heap] and are named by
    their index; the [tasks] map sends a task id to the object stored
    under it, so the event bus of a task and the map entry share one
    object.  [uuids] and [clock] count the identifiers drawn and the clock
    readings made so far. *)
Record State := {
  heap : list Task;
  tasks : gmap string nat;
  uuids : nat;
  clock : nat
}.

Definition init : State :=
  {| heap := []; tasks := ∅; uuids := 0; clock := 0 |}.

(** The invariant behind the freshness of task ids: every id under which
    a task is stored was drawn from the generator. *)
Definition ids_drawn (W : World) (σ : State) : Prop :=
  ∀ taskId r, tasks σ !! taskId = Some r →
    ∃ k, (k < uuids σ)%nat ∧ taskId = uuidv4 W k.

(** A background execution: the task object its event bus closes over and
    the context given to the executor. *)
Record Job := { job_task : nat; job_context : ExecutionContext }.

Definition push (event : Message) (t : Task) : Task :=
  {| task_id := task_id t; contextId := contextId t; status := status t;
     history := history t ++ [event] |}.

Definition set_status (s : TaskStatus) (t : Task) : Task :=
  {| task_id := task_id t; contextId := contextId t; status := s;
     history := history t |}.

Definition with_heap (f : list Task → list Task) (σ : State) : State :=
  {| heap := f (heap σ); tasks := tasks σ; uuids := uuids σ;
     clock := clock σ |}.

(** [new Date().toISOString()] *)
Definition now (W : World) (σ : State) : string := toISOString W (clock σ).

Definition tick (σ : State) : State :=
  {| heap := heap σ; tasks := tasks σ; uuids := uuids σ;
     clock := S (clock σ) |}.

(** [eventBus.publish]: [task.history.push(event)] *)
Definition publish (r : nat) (event : Message) (σ : State) : State :=
  with_heap (alter (push event) r) σ.

(** [eventBus.finished]: [task.status = { state: 'completed', timestamp }] *)
Definition finished (W : World) (r : nat) (σ : State) : State :=
  tick (with_heap
          (alter (set_status {| state := completed; timestamp := now W σ;
                                message := None |}) r) σ).

(** The handler of [executor.execute(...).catch]. *)
Definition on_rejected (W : World) (r : nat) (reason : string) (σ : State)
    : State :=
  tick (with_heap
          (alter (set_status {| state := failed; timestamp := now W σ;
                                message := Some reason |}) r) σ).

Definition deliver (W : World) (r : nat) (σ : State) (ev : BusEvent) : State :=
  match ev with
  | Publish event => publish r event σ
  | Finished => finished W r σ
  end.

(** A whole background execution, run without interruption. *)
Definition run_job (W : World) (j : Job) (σ : State) : State :=
  let run := Executor.execute W (job_context j) in
  let σ' := foldl (deliver W (job_task j)) σ (Executor.events run) in
  match Executor.rejected run with
  | Some reason => on_rejected W (job_task j) reason σ'
  | None => σ'
  end.

Definition undefined_params (field : string) : string :=
  "Cannot destructure property '" +:+ field
    +:+ "' of 'params' as it is undefined.".

(** [handleSendMessage], up to its [return task]: the task is built,
    stored, and the execution is started in the background. *)
Definition handleSendMessage (W : World) (ps : option Params) (σ : State)
    : (Thrown + Job) * State :=
  match ps with
  | None => (inl (TypeError (undefined_params "message")), σ)
  | Some p =>
      match p_message p with
      | None =>
          (inl (createRPCError (-32602) "Invalid params: message required"), σ)
      | Some message =>
          let taskId := uuidv4 W (uuids σ) in
          let supplied := truthy_str (p_contextId p) in
          let task :=
            {| task_id := taskId;
               contextId :=
                 if supplied then default "" (p_contextId p)
                 else uuidv4 W (S (uuids σ));
               status := {| state := working; timestamp := now W σ;
                            message := None |};
               history := [message] |} in
          let r := length (heap σ) in
          (inr {| job_task := r;
                  job_context := {| ctx_message := message;
                                    ctx_contextId := contextId task;
                                    ctx_taskId := taskId |} |},
           {| heap := heap σ ++ [task];
              tasks := <[taskId := r]> (tasks σ);
              uuids := if supplied then S (uuids σ) else S (S (uuids σ));
              clock := S (clock σ) |})
      end
  end.

(** [handleGetTaskRPC] *)
Definition handleGetTaskRPC (ps : option Params) (σ : State) : Thrown + nat :=
  match ps with
  | None => inl (TypeError (undefined_params "taskId"))
  | Some p =>
      if truthy_str (p_taskId p) then
        let taskId := default "" (p_taskId p) in
        match tasks σ !! taskId with
        | None => inl (createRPCError (-32000) ("Task not found: " +:+ taskId))
        | Some r => inr r
        end
      else inl (createRPCError (-32602) "Invalid params: taskId required")
  end.

(** [handleCancelTask] *)
Definition handleCancelTask (W : World) (ps : option Params) (σ : State)
    : (Thrown + nat) * State :=
  match ps with
  | None => (inl (TypeError (undefined_params "taskId")), σ)
  | Some p =>
      if truthy_str (p_taskId p) then
        let taskId := default "" (p_taskId p) in
        match tasks σ !! taskId with
        | None =>
            (inl (createRPCError (-32000) ("Task not found: " +:+ taskId)), σ)
        | Some r =>
            (inr r,
             tick (with_heap
                     (alter (set_status {| state := canceled;
                                           timestamp := now W σ;
                                           message := None |}) r) σ))
        end
      else (inl (createRPCError (-32602) "Invalid params: taskId required"), σ)
  end.

Inductive Method := SendMessage | GetTask | CancelTask | NotFound.

(** The [switch (request.method)] *)
Definition dispatch (m : option string) : Method :=
  match m with
  | Some "sendMessage" | Some "message/send" => SendMessage
  | Some "getTask" | Some "task/get" | Some "tasks/get" => GetTask
  | Some "cancelTask" | Some "task/cancel" => CancelTask
  | _ => NotFound
  end.

(** [request.jsonrpc !== '2.0'], negated *)
Definition is_version_2 (v : option JSON) : bool :=
  match v with
  | Some (JStr s) => String.eqb s "2.0"
  | _ => false
  end.

Definition success (req : JSONRPCRequest) (r : nat) (σ : State)
    : JSONRPCResponse :=
  {| http_status := 200; result := heap σ !! r; error := None;
     resp_id := nullish_else (req_id req) JNull |}.

Definition failure (req : JSONRPCRequest) (e : Thrown) : JSONRPCResponse :=
  {| http_status := 400; result := None; error := Some e;
     resp_id := nullish_else (req_id req) JNull |}.

(** [handleJSONRPC]: the response, the new state and the execution started
    in the background, if any. *)
Definition handleJSONRPC (W : World) (req : JSONRPCRequest) (σ : State)
    : JSONRPCResponse * State * option Job :=
  if is_version_2 (jsonrpc req) then
    match dispatch (method req) with
    | SendMessage =>
        match handleSendMessage W (params req) σ with
        | (inr j, σ') => (success req (job_task j) σ', σ', Some j)
        | (inl e, σ') => (failure req e, σ', None)
        end
    | GetTask =>
        match handleGetTaskRPC (params req) σ with
        | inr r => (success req r σ, σ, None)
        | inl e => (failure req e, σ, None)
        end
    | CancelTask =>
        match handleCancelTask W (params req) σ with
        | (inr r, σ') => (success req r σ', σ', None)
        | (inl e, σ') => (failure req e, σ', None)
        end
    | NotFound =>
        (failure req
           (createRPCError (-32601)
              ("Method not found: " +:+ default "undefined" (method req))),
         σ, None)
    end
  else
    ({| http_status := 200; result := None;
        error := Some (RPCError (-32600) "Invalid Request");
        resp_id := or_else (req_id req) JNull |},
     σ, None).

(** One atomic step of the server: a request handled up to its
    response, one call on the event bus of some task by an execution in
    flight, or the [catch] handler of an execution.  Requests and
    executions interleave freely. *)
Inductive step (W : World) : State → State → Prop :=
| step_request (req : JSONRPCRequest) (σ : State) :
    step W σ (handleJSONRPC W req σ).1.2
| step_bus (r : nat) (ev : BusEvent) (σ : State) :
    step W σ (deliver W r σ ev)
| step_rejected (r : nat) (reason : string) (σ : State) :
    step W σ (on_rejected W r reason σ).

(** Any number of steps, and the states the server can be in. *)
Definition reaches (W : World) : State → State → Prop := rtc (step W).

Definition reachable (W : World) (σ : State) : Prop := reaches W init σ.

(** What a step may do to one task object: keep its identity and extend
    its history. *)
Definition grows (t t' : Task) : Prop :=
  task_id t' = task_id t ∧ contextId t' = contextId t ∧
  history t `prefix_of` history t'.

(** Every entry of the task map names a task object carrying that id. *)
Definition entries_valid (σ : State) : Prop :=
  ∀ taskId r, tasks σ !! taskId = Some r →
    ∃ t, heap σ !! r = Some t ∧ task_id t = taskId.

End Router.

(** ** The browser clients *)

(** [pollTask] and [handleTask] follow the standalone client
    ([A2AClient]); the loop of the SDK client is the same except that it
    only logs a failed task.  [startTaskPolling] is the loop of
    [client.js]. *)

Module Client.

(** What one [getTask] round trip gives: the task of the response, or the
    error that makes the [try] block throw. *)
Inductive Fetched :=
| Thrown (reason : string)
| Got (task : Task).

(** [task.history.filter(h => h.role === 'agent')] *)
Definition agentMessages (h : list Message) : list Message :=
  filter (λ m, role m = agent) h.

(** The history of the entry of [this.tasks] for the polled id. *)
Definition known (existing : option Task) : list Message :=
  from_option history [] existing.

(** [agentMessages.slice(shownAgentMessages)], taken only when
    [agentMessages.length > shownAgentMessages]. *)
Definition newMessages (shown : nat) (task : Task) : list Message :=
  if bool_decide (shown < length (agentMessages (history task)))
  then drop shown (agentMessages (history task))
  else [].

(** [shownAgentMessages] after the fetch. *)
Definition nextShown (shown : nat) (task : Task) : nat :=
  if bool_decide (shown < length (agentMessages (history task)))
  then length (agentMessages (history task))
  else shown.

(** A bubble appended to the chat by [addAgentMessage] or
    [addSystemMessage]. *)
Inductive Bubble :=
| AgentBubble (text : string) (data : option JSON)
| SystemBubble (text : string).

(** The body of [newMessages.forEach]: the text parts joined by a line
    feed, the first data part, and a bubble only [if (text)].  The parts
    are read as [msg.parts?.filter(...) || []], so a message without
    parts has no text and draws nothing. *)
Definition display (msg : Message) : list Bubble :=
  let text :=
    String.concat nl (omap Executor.text_of (default [] (parts msg))) in
  let data := head (omap Executor.data_of (default [] (parts msg))) in
  if String.eqb text "" then [] else [AgentBubble text data].

(** What a polling session did: the number of [getTask] requests, the
    messages of the slices it took, the bubbles it drew, the task it
    last stored, and whether it ended on the attempt bound. *)
Record Session := {
  fetches : nat;
  emitted : list Message;
  chat : list Bubble;
  stored : option Task;
  timed_out : bool
}.

Definition halt (existing : option Task) (timeout : bool) : Session :=
  {| fetches := 0; emitted := []; chat := []; stored := existing;
     timed_out := timeout |}.

(** One fetch and what it showed, before the rest of the session. *)
Definition after_fetch (new : list Message) (extra : list Bubble)
    (rest : Session) : Session :=
  {| fetches := S (fetches rest);
     emitted := new ++ emitted rest;
     chat := (new ≫= display) ++ extra ++ chat rest;
     stored := stored rest;
     timed_out := timed_out rest |}.

Definition maxAttempts : nat := 30.

(** The closure [poll] of [A2AClient.pollTask], entered with the current
    values of [attempts] and [shownAgentMessages]; [fetch k] is the
    outcome of the k-th request.  Only the [working] branch re-arms the
    timer. *)
Equations? poll (fetch : nat → Fetched) (attempts shown : nat)
    (existing : option Task) : Session by wf (maxAttempts - attempts) lt :=
poll fetch attempts shown existing with decide (maxAttempts ≤ attempts)%nat := {
  | left _ => halt existing true
  | right _ with fetch attempts := {
    | Thrown _ => after_fetch [] [] (halt existing false)
    | Got task with state (status task) := {
      | working =>
          after_fetch (newMessages shown task) []
            (poll fetch (S attempts) (nextShown shown task) (Some task))
      | completed =>
          after_fetch (newMessages shown task) [] (halt (Some task) false)
      | failed =>
          after_fetch (newMessages shown task)
            [SystemBubble ("❌ Task failed: " +:+
               (if truthy_str (message (status task))
                then default "" (message (status task))
                else "Unknown error"))]
            (halt (Some task) false)
      | canceled =>
          after_fetch (newMessages shown task) [] (halt (Some task) false) } } }.
Proof. unfold maxAttempts in *. lia. Qed.

(** [pollTask(taskId)]: the counter starts from the agent messages of the
    task already stored under that id. *)
Definition pollTask (fetch : nat → Fetched) (existing : option Task)
    : Session :=
  poll fetch 0 (length (agentMessages (known existing))) existing.

(** [handleTask(task)]: store the task, show the agent messages of a
    history longer than one, and poll while the task is [working]. *)
Definition handleTask (fetch : nat → Fetched) (task : Task) : Session :=
  let first :=
    if bool_decide (1 < length (history task))
    then agentMessages (history task) else [] in
  let rest :=
    if bool_decide (state (status task) = working)
    then pollTask fetch (Some task)
    else halt (Some task) false in
  {| fetches := fetches rest;
     emitted := first ++ emitted rest;
     chat := (first ≫= display) ++ chat rest;
     stored := stored rest;
     timed_out := timed_out rest |}.

(** *** client.js: polling on [setInterval] *)

(** The variables the interval callback of [startTaskPolling] reads and
    writes: whether [taskPollInterval] is still armed, whether
    [currentTask] is set, the counter, and what was requested and
    displayed so far. *)
Record Polling := {
  armed : bool;
  currentTask : bool;
  shownAgentMessages : nat;
  requests : nat;
  displayed : list Message
}.

(** [startTaskPolling(taskId)] right after [sendMessage] stored the task
    and set [currentTask]. *)
Definition startTaskPolling (existing : option Task) : Polling :=
  {| armed := true; currentTask := true;
     shownAgentMessages := length (agentMessages (known existing));
     requests := 0; displayed := [] |}.

(** [newMessages.forEach(msg => displayAgentMessage(msg))]: the messages
    displayed, and whether the loop ran to its end.  [displayAgentMessage]
    reads [message.parts.filter] and so throws on a message without
    parts; the messages after it are not reached. *)
Fixpoint forEach_display (l : list Message) : list Message * bool :=
  match l with
  | [] => ([], true)
  | msg :: l' =>
      match parts msg with
      | None => ([], false)
      | Some _ => (msg :: (forEach_display l').1, (forEach_display l').2)
      end
  end.

(** One firing of the interval callback.  A throw, of the request or of
    the display, lands in the [catch] block, which clears the interval
    and leaves [currentTask] and the counter as they were. *)
Definition fire (fetch : nat → Fetched) (p : Polling) : Polling :=
  if negb (currentTask p) then p
  else
    match fetch (requests p) with
    | Thrown _ =>
        {| armed := false; currentTask := currentTask p;
           shownAgentMessages := shownAgentMessages p;
           requests := S (requests p); displayed := displayed p |}
    | Got task =>
        let shown :=
          forEach_display (newMessages (shownAgentMessages p) task) in
        if shown.2 then
          let ended :=
            bool_decide (state (status task) = completed) ||
            bool_decide (state (status task) = failed) in
          {| armed := negb ended;
             currentTask := negb ended;
             shownAgentMessages := nextShown (shownAgentMessages p) task;
             requests := S (requests p);
             displayed := displayed p ++ shown.1 |}
        else
          {| armed := false; currentTask := currentTask p;
             shownAgentMessages := shownAgentMessages p;
             requests := S (requests p);
             displayed := displayed p ++ shown.1 |}
    end.

(** The first [n] periods of the timer: the callback fires as long as the
    interval has not been cleared. *)
Fixpoint elapse (fetch : nat → Fetched) (n : nat) (p : Polling) : Polling :=
  match n with
  | 0 => p
  | S n' => if armed p then elapse fetch n' (fire fetch p) else p
  end.

End Client.

(** ** Concrete worlds and inputs *)

Module Examples.
Import Executor Router.

Definition account : JSON :=
  JObj (<["id" := JStr "acc-1"]> {[ "name" := JStr "Nike" ]}).

Definition order : JSON := JObj {[ "id" := JStr "ord-1" ]}.

Definition call (name : string) (ps : gmap string JSON) : Step :=
  {| toolName := name; toolParams := Some (JObj ps) |}.

Definition single (name : string) (ps : gmap string JSON) : PlanResponse :=
  {| plan_toolName := name; plan_toolParams := Some (JObj ps);
     steps := None |}.

Definition several (l : list Step) : PlanResponse :=
  {| plan_toolName := ""; plan_toolParams := None; steps := Some l |}.

(** A planner that knows six utterances. *)
Definition planner (utterance : string) : string + PlanResponse :=
  if String.eqb utterance "Create an account for Nike" then
    inr (single "create_account" {[ "name" := JStr "Nike" ]})
  else if String.eqb utterance "account then order" then
    inr (several
      [ call "create_account" {[ "name" := JStr "Nike" ]};
        call "create_order"
          (<["accountId" := JStr PREVIOUS_RESULT_ID]>
             {[ "targeting" :=
                  JObj {[ "accountId" := JStr PREVIOUS_RESULT_ID ]} ]}) ])
  else if String.eqb utterance "account, approve, order" then
    inr (several
      [ call "create_account" {[ "name" := JStr "Nike" ]};
        call "approve" ∅;
        call "create_order" {[ "accountId" := JStr PREVIOUS_RESULT_ID ]} ])
  else if String.eqb utterance "order only" then
    inr (single "create_order" {[ "accountId" := JStr PREVIOUS_RESULT_ID ]})
  else if String.eqb utterance "ping" then
    inr (single "ping" ∅)
  else if String.eqb utterance "ping then order" then
    inr (several
      [ call "ping" ∅;
        call "create_order" {[ "accountId" := JStr PREVIOUS_RESULT_ID ]} ])
  else inl "No response from AI".

(** A registry with three working tools; [ping] answers the empty
    string, and every other name is unknown. *)
Definition registry (k : nat) (name : string) (args : gmap string JSON)
    : string + MCPResponse :=
  if String.eqb name "create_account" then
    inr {| content := [ {| type := "text"; text := "ACCOUNT" |} ] |}
  else if String.eqb name "create_order" then
    inr {| content := [ {| type := "text"; text := "ORDER" |} ] |}
  else if String.eqb name "ping" then
    inr {| content := [ {| type := "text"; text := "" |} ] |}
  else inl ("Tool not found: " +:+ name).

Definition parse (s : string) : option JSON :=
  if String.eqb s "ACCOUNT" then Some account
  else if String.eqb s "ORDER" then Some order
  else None.

Definition world : World :=
  {| uuidv4 := λ k, "uuid-" +:+ pretty k;
     toISOString := λ k, "T" +:+ pretty k;
     selectToolWithAI := planner;
     callTool := registry;
     JSON_parse := parse;
     newMessageId := λ k, "msg-" +:+ pretty k;
     newTimestamp := λ k, "M" +:+ pretty k |}.

Definition says (utterance : string) : Message :=
  {| messageId := "m0"; role := user; parts := Some [TextPart utterance];
     msg_contextId := None; msg_taskId := None; msg_timestamp := None |}.

Definition send (utterance : string) (context : option string) (i : JSON)
    : JSONRPCRequest :=
  {| jsonrpc := Some (JStr "2.0"); method := Some "sendMessage";
     params := Some {| p_message := Some (says utterance);
                       p_contextId := context; p_taskId := None |};
     req_id := Some i |}.

(** A message that arrived without a parts array, and the send-message
    that carries it. *)
Definition bare (r : Role) : Message :=
  {| messageId := "m0"; role := r; parts := None;
     msg_contextId := None; msg_taskId := None; msg_timestamp := None |}.

Definition send_bare : JSONRPCRequest :=
  {| jsonrpc := Some (JStr "2.0"); method := Some "sendMessage";
     params := Some {| p_message := Some (bare user);
                       p_contextId := None; p_taskId := None |};
     req_id := Some (JNum 1) |}.

Definition about (meth taskId : string) : JSONRPCRequest :=
  {| jsonrpc := Some (JStr "2.0"); method := Some meth;
     params := Some {| p_message := None; p_contextId := None;
                       p_taskId := Some taskId |};
     req_id := Some (JNum 7) |}.

(** The router after one send-message, before the execution ran. *)
Definition accepted (utterance : string) : State :=
  (handleJSONRPC world (send utterance None (JNum 1)) init).1.2.

(** The same router once the background execution is over. *)
Definition settled (utterance : string) : State :=
  match (handleJSONRPC world (send utterance None (JNum 1)) init).2 with
  | Some j => run_job world j (accepted utterance)
  | None => accepted utterance
  end.

(** The context the router gives the executor for the first task. *)
Definition context (utterance : string) : ExecutionContext :=
  {| ctx_message := says utterance; ctx_contextId := "uuid-1";
     ctx_taskId := "uuid-0" |}.

(** The plans of the planner, by name. *)
Definition account_then_order : PlanResponse :=
  several
    [ call "create_account" {[ "name" := JStr "Nike" ]};
      call "create_order"
        (<["accountId" := JStr PREVIOUS_RESULT_ID]>
           {[ "targeting" :=
                JObj {[ "accountId" := JStr PREVIOUS_RESULT_ID ]} ]}) ].

Definition second_step : Step :=
  call "create_order"
    (<["accountId" := JStr PREVIOUS_RESULT_ID]>
       {[ "targeting" :=
            JObj {[ "accountId" := JStr PREVIOUS_RESULT_ID ]} ]}).

Definition order_only : PlanResponse :=
  single "create_order" {[ "accountId" := JStr PREVIOUS_RESULT_ID ]}.

(** The parameters the second call of [account_then_order] receives. *)
Definition linked_order : gmap string JSON :=
  <["accountId" := JStr "acc-1"]>
    {[ "targeting" := JObj {[ "accountId" := JStr PREVIOUS_RESULT_ID ]} ]}.

Definition cancel (taskId : string) : Params :=
  {| p_message := None; p_contextId := None; p_taskId := Some taskId |}.

Definition hello (context : option string) : Params :=
  {| p_message := Some (says "Create an account for Nike");
     p_contextId := context; p_taskId := None |}.

(** A task as a client sees it, and a server whose history grows by one
    agent message per request until the task completes at the third. *)
Definition says_agent (t : string) : Message :=
  {| messageId := t; role := agent; parts := Some [TextPart t];
     msg_contextId := None; msg_taskId := None; msg_timestamp := None |}.

Definition snapshot (s : TaskState) (h : list Message) : Task :=
  {| task_id := "uuid-0"; contextId := "uuid-1";
     status := {| state := s; timestamp := "T0"; message := None |};
     history := h |}.

Definition growing (k : nat) : Client.Fetched :=
  Client.Got
    (snapshot (if bool_decide (k < 2) then working else completed)
       (says "hello" :: ((λ i, says_agent (pretty i)) <$> seq 0 (S k)))).

(** The response to the send-message that started the polling. *)
Definition first_response : Task := snapshot working [says "hello"].

(** The task that server delivers at its third request. *)
Definition final : Task :=
  snapshot completed
    (says "hello" :: ((λ i, says_agent (pretty i)) <$> seq 0 3)).

(** A server on which the task was canceled. *)
Definition stuck (k : nat) : Client.Fetched :=
  Client.Got (snapshot canceled [says "hello"]).

(** A first response whose history is one agent message, and a server
    that then answers with the completed task, one agent message
    longer. *)
Definition lone : Task := snapshot working [says_agent "a"].

Definition answered (k : nat) : Client.Fetched :=
  Client.Got (snapshot completed [says_agent "a"; says_agent "b"]).

(** A server whose completed task holds an agent message without
    parts. *)
Definition unreadable (k : nat) : Client.Fetched :=
  Client.Got (snapshot completed [bare agent]).

End Examples.

(** ** mcp/mcp-server.ts *)

(** The tool registry the executor calls: the handler table, [callTool],
    and the mock handlers [createToolHandler] builds. *)

Module MCP.

Record MCPTool := {
  name : string;
  description : string;
  inputSchema : JSON
}.

(** [MCPToolHandler], called for the k-th time: the message of the error
    it throws, or its result. *)
Definition Handler : Type := nat → gmap string JSON → string + JSON.

(** [s.includes(sub)] *)
Fixpoint includes (sub s : string) : bool :=
  String.prefix sub s ||
  match s with
  | EmptyString => false
  | String _ s' => includes sub s'
  end.

(** What the mock handlers read from outside: [draw k i], the i-th
    identifier drawn during the k-th call, and [at_call k], the clock
    reading of that call. *)
Record Mock := {
  draw : nat → nat → string;
  at_call : nat → string
}.

(** [generateMockResponse(toolName, params)]; [a || b] on the fields of
    [params].  In the generic branch [params] is spread after [id] and
    before [status] and [timestamp]. *)
Definition generateMockResponse (uuid : nat → string) (now : string)
    (toolName : string) (params : gmap string JSON) : JSON :=
  let id := JStr (uuid 0) in
  if includes "account" toolName then
    JObj (list_to_map
      [ ("id", id);
        ("name", or_else (params !! "name") (JStr "Mock Account"));
        ("type", or_else (params !! "type") (JStr "advertiser"));
        ("status", JStr "active");
        ("createdAt", JStr now) ])
  else if includes "order" toolName then
    JObj (list_to_map
      [ ("id", id);
        ("accountId", or_else (params !! "accountId") (JStr (uuid 1)));
        ("name", or_else (params !! "name") (JStr "Mock Order"));
        ("budget", or_else (params !! "budget") (JNum 10000));
        ("status", JStr "pending");
        ("createdAt", JStr now) ])
  else if includes "product" toolName then
    JObj (list_to_map
      [ ("id", id);
        ("name", or_else (params !! "name") (JStr "Mock Product"));
        ("type", JStr "display");
        ("rate", JNum 10);
        ("available", JBool true);
        ("createdAt", JStr now) ])
  else if includes "creative" toolName then
    JObj (list_to_map
      [ ("id", id);
        ("name", or_else (params !! "name") (JStr "Mock Creative"));
        ("adFormat", or_else (params !! "adFormat") (JStr "banner"));
        ("status", JStr "pending_review");
        ("createdAt", JStr now) ])
  else
    JObj (<["timestamp" := JStr now]>
            (<["status" := JStr "success"]> (params ∪ {[ "id" := id ]}))).

(** [createToolHandler(tool)] *)
Definition createToolHandler (M : Mock) (tool : MCPTool) : Handler :=
  λ k params,
    inr (generateMockResponse (draw M k) (at_call M k) (name tool) params).

(** [registerToolHandlers]: one [toolHandlers.set] per tool, in order. *)
Definition registerToolHandlers (M : Mock) (tools : list MCPTool)
    : gmap string Handler :=
  foldl (λ m tool, <[name tool := createToolHandler M tool]> m) ∅ tools.

(** The [text] of a result: [typeof result === 'string' ? result :
    JSON.stringify(result, null, 2)]. *)
Definition render (stringify : JSON → string) (result : JSON) : string :=
  match result with
  | JStr s => s
  | v => stringify v
  end.

(** [callTool(toolName, args)], called for the k-th time.  The lookup
    throws before the [try]; an error of the handler is rethrown with a
    prefix. *)
Definition callTool (stringify : JSON → string)
    (toolHandlers : gmap string Handler) (k : nat) (toolName : string)
    (args : gmap string JSON) : string + MCPResponse :=
  match toolHandlers !! toolName with
  | None => inl ("Tool not found: " +:+ toolName)
  | Some handler =>
      match handler k args with
      | inl err => inl ("Tool execution failed: " +:+ err)
      | inr result =>
          inr {| content :=
                   [ {| type := "text"; text := render stringify result |} ] |}
      end
  end.

End MCP.

(** ** a2a/executor.ts, the variant for the SDK's event bus *)

(** What this variant adds to the other: the [activeTasks] set, entered
    at the start of [execute] and left in its [finally] block, and
    [cancelTask]. *)

Module SDK.

(** [createAgentMessage] of this variant: no [timestamp]. *)
Definition createAgentMessage (W : World) (k : nat) (text : string)
    (data : JSON) (contextId taskId : string) : Message :=
  {| messageId := newMessageId W k;
     role := agent;
     parts :=
       Some (TextPart text :: (if truthy data then [DataPart data] else []));
     msg_contextId := Some contextId;
     msg_taskId := Some taskId;
     msg_timestamp := None |}.

(** [this.activeTasks.add(taskId)] and [this.activeTasks.delete(taskId)] *)
Definition enter (taskId : string) (activeTasks : gset string) : gset string :=
  {[ taskId ]} ∪ activeTasks.

Definition leave (taskId : string) (activeTasks : gset string) : gset string :=
  activeTasks ∖ {[ taskId ]}.

(** [cancelTask(taskId, eventBus)]: the calls it makes on the bus and the
    set it leaves; [k] numbers the message it creates. *)
Definition cancelTask (W : World) (k : nat) (taskId : string)
    (activeTasks : gset string) : list BusEvent * gset string :=
  if bool_decide (taskId ∈ activeTasks) then
    ([ Publish (createAgentMessage W k "Task has been canceled" JNull ""
                  taskId);
       Finished ],
     leave taskId activeTasks)
  else ([], activeTasks).

End SDK.

(** ** a2a/router.ts, the REST transport *)

Module Rest.
Import Router.

(** The body handed to [res.json] with the HTTP status: [{ task }] or
    [{ error }]. *)
Record Response := {
  status_code : nat;
  task : option Task;
  error_text : option string
}.

(** [error instanceof Error ? error.message : String(error)]: the object
    built by [createRPCError] is no [Error] and prints as any plain
    object does. *)
Definition describe (e : Thrown) : string :=
  match e with
  | RPCError _ _ => "[object Object]"
  | TypeError msg => msg
  end.

(** [handleRESTSendMessage], with [req.body] as the parameters. *)
Definition handleRESTSendMessage (W : World) (body : option Params)
    (σ : State) : Response * State * option Job :=
  match handleSendMessage W body σ with
  | (inr j, σ') =>
      ({| status_code := 200; task := heap σ' !! job_task j;
          error_text := None |}, σ', Some j)
  | (inl e, σ') =>
      ({| status_code := 400; task := None;
          error_text := Some (describe e) |}, σ', None)
  end.

(** [handleRESTGetTask], with [req.params.taskId]. *)
Definition handleRESTGetTask (taskId : string) (σ : State) : Response :=
  match tasks σ !! taskId with
  | None =>
      {| status_code := 404; task := None;
         error_text := Some ("Task not found: " +:+ taskId) |}
  | Some r =>
      {| status_code := 200; task := heap σ !! r; error_text := None |}
  end.

(** [handleRESTCancelTask], with [req.params.taskId]. *)
Definition handleRESTCancelTask (W : World) (taskId : string) (σ : State)
    : Response * State :=
  match tasks σ !! taskId with
  | None =>
      ({| status_code := 404; task := None;
          error_text := Some ("Task not found: " +:+ taskId) |}, σ)
  | Some r =>
      let σ' :=
        tick (with_heap
                (alter (set_status {| state := canceled; timestamp := now W σ;
                                      message := None |}) r) σ) in
      ({| status_code := 200; task := heap σ' !! r; error_text := None |}, σ')
  end.

End Rest.

(** ** app.js: the clients that compare with the task they stored *)

Module App.
Import Client.

(** [handleTask(task)] of [client-html/app.js], with [this.tasks] as it
    was before the call: only the agent messages beyond those of the task
    stored under the same id are shown, then the task is polled while it
    is [working], by a [pollTask] that is the one of the standalone
    client.  ([client/src/app.js] differs in one place: its [pollTask]
    logs a failed task and draws no notice for it.) *)
Definition handleTask (fetch : nat → Fetched) (tasks : gmap string Task)
    (task : Task) : Session :=
  let existingAgentMessageCount :=
    length (agentMessages (known (tasks !! task_id task))) in
  let first := newMessages existingAgentMessageCount task in
  let rest :=
    if bool_decide (state (status task) = working)
    then pollTask fetch (Some task)
    else halt (Some task) false in
  {| fetches := fetches rest;
     emitted := first ++ emitted rest;
     chat := (first ≫= display) ++ chat rest;
     stored := stored rest;
     timed_out := timed_out rest |}.

(** [this.tasks] after the call. *)
Definition remember (tasks : gmap string Task) (task : Task) (s : Session)
    : gmap string Task :=
  <[task_id task := default task (stored s)]> tasks.

End App.

(** ** Shapes of what an execution publishes *)

Module Shape.
Import Executor.

(** A message as [createAgentMessage] builds it for a context when the
    text is not empty: one text fragment, then at most one data fragment
    with a truthy payload. *)
Definition agent_message (ctx : ExecutionContext) (m : Message) : Prop :=
  role m = agent ∧
  msg_contextId m = Some (ctx_contextId ctx) ∧
  msg_taskId m = Some (ctx_taskId ctx) ∧
  ∃ text, text ≠ "" ∧
    (parts m = Some [TextPart text] ∨
     ∃ d, truthy d = true ∧ parts m = Some [TextPart text; DataPart d]).

(** The intermediate messages of a plan of [n] steps whose first calls
    gave [done] (tool name and result, in call order): none for a
    single-step plan, else one per call. *)
Definition progress (W : World) (ctx : ExecutionContext) (n : nat)
    (done : list (string * JSON)) : list Message :=
  if bool_decide (1 < n)
  then imap (λ j tr, createAgentMessage W j (stepText j n tr.1) tr.2
                       (ctx_contextId ctx) (ctx_taskId ctx)) done
  else [].

(** The number of messages created before the closing one. *)
Definition created (n : nat) (done : list (string * JSON)) : nat :=
  if bool_decide (1 < n) then length done else 0.

End Shape.

(** ** A world whose registry is a handler table *)

(** The executor of [Examples] calls an abstract registry.  Here
    [callTool] is [MCP.callTool] over a table of five handlers, and the
    mock handlers draw their identifiers from [mock]. *)

Module Samples.
Import Executor.

(** [JSON.stringify] and [JSON.parse] on what the handlers below return:
    booleans, numbers and [null]. *)
Definition stringify (v : JSON) : string :=
  match v with
  | JBool true => "true"
  | JBool false => "false"
  | JNum z => pretty z
  | _ => "null"
  end.

Definition parse (s : string) : option JSON :=
  if String.eqb s "true" then Some (JBool true)
  else if String.eqb s "false" then Some (JBool false)
  else if String.eqb s "null" then Some JNull
  else if String.eqb s "42" then Some (JNum 42)
  else None.

Definition toolHandlers : gmap string MCP.Handler :=
  <["echo" := λ _ _, inr (JBool true)]>
    (<["count" := λ _ _, inr (JNum 42)]>
       (<["clock" := λ _ _, inr (JStr "noon")]>
          (<["digits" := λ _ _, inr (JStr "42")]>
             {[ "boom" := λ _ _, inl "database offline" ]}))).

Definition echo_missing_echo : PlanResponse :=
  Examples.several
    [ Examples.call "echo" ∅; Examples.call "missing" ∅;
      Examples.call "echo" ∅ ].

Definition echo_boom_echo : PlanResponse :=
  Examples.several
    [ Examples.call "echo" ∅; Examples.call "boom" ∅;
      Examples.call "echo" ∅ ].

Definition planner (utterance : string) : string + PlanResponse :=
  if String.eqb utterance "echo, missing, echo" then inr echo_missing_echo
  else if String.eqb utterance "echo, boom, echo" then inr echo_boom_echo
  else if String.eqb utterance "nothing" then inr (Examples.several [])
  else inl "No response from AI".

Definition world : World :=
  {| uuidv4 := λ k, "uuid-" +:+ pretty k;
     toISOString := λ k, "T" +:+ pretty k;
     selectToolWithAI := planner;
     callTool := MCP.callTool stringify toolHandlers;
     JSON_parse := parse;
     newMessageId := λ k, "msg-" +:+ pretty k;
     newTimestamp := λ k, "M" +:+ pretty k |}.

(** The plan of [Examples.planner] whose second tool is unknown to
    [Examples.registry], and the summary of a one-step execution. *)
Definition account_approve_order : PlanResponse :=
  Examples.several
    [ Examples.call "create_account" {[ "name" := JStr "Nike" ]};
      Examples.call "approve" ∅;
      Examples.call "create_order"
        {[ "accountId" := JStr PREVIOUS_RESULT_ID ]} ].

Definition summary_message : Message :=
  createAgentMessage Examples.world 0 "Successfully executed create_account"
    Examples.account "uuid-1" "uuid-0".

Definition mock : MCP.Mock :=
  {| MCP.draw := λ k i, "id-" +:+ pretty k +:+ "-" +:+ pretty i;
     MCP.at_call := λ k, "T" +:+ pretty k |}.

(** The router's memory before and after the execution of one request,
    then unchanged. *)
Definition run (utterance : string) (k : nat) : Router.State :=
  match k with
  | 0 => Examples.accepted utterance
  | S _ => Examples.settled utterance
  end.

End Samples.

(** * Properties *)

(** ** JavaScript values *)

Section values.

Lemma truthy_str_spec (o : option string) :
  truthy_str o = true ↔ ∃ s, o = Some s ∧ s ≠ "".
Proof.
  destruct o as [s|]; simpl.
  - rewrite negb_true_iff, String.eqb_neq. split.
    + intros Hs. by exists s.
    + by intros (s' & [= <-] & Hs).
  - split; [done|]. by intros (s & ? & _).
Qed.

Lemma has_id_spec (prev : JSON) :
  Executor.has_id prev = true ↔
  ∃ m i, prev = JObj m ∧ m !! "id" = Some i ∧ truthy i = true.
Proof.
  unfold Executor.has_id. split.
  - intros [Hp Hi]%andb_true_iff.
    destruct prev as [| | | | |m]; simpl in Hi; try discriminate.
    destruct (m !! "id") as [i|] eqn:E; [|discriminate]. eauto.
  - intros (m & i & -> & E & Hi). simpl. by rewrite E.
Qed.

Lemma nullish_else_defined (v : JSON) :
  v ≠ JNull → nullish_else (Some v) JNull = v.
Proof. by destruct v. Qed.

(** A string spreads per code unit: a character of two or three bytes is
    one property, a character outside the basic plane is two. *)
Lemma spread_string_by_code_unit :
  spread (Some (JStr "aé€")) =
    {[ "0" := JStr "a"; "1" := JStr "é"; "2" := JStr "€" ]} ∧
  size (spread (Some (JStr "😀"))) = 2.
Proof. split; by vm_compute. Qed.

End values.

(** ** The executor *)

Section executor.
Import Executor.
Context (W : World) (ctx : ExecutionContext).

(** The planner is called on the text of the message, when there is
    one. *)
Lemma planner_called (answer : string + PlanResponse) :
  selectToolWithAI W <$> extractTextFromMessage (ctx_message ctx)
    = Some answer →
  ∃ userMessage,
    extractTextFromMessage (ctx_message ctx) = Some userMessage ∧
    selectToolWithAI W userMessage = answer.
Proof.
  destruct (extractTextFromMessage (ctx_message ctx)) as [userMessage|];
    [|done].
  intros [= <-]. by exists userMessage.
Qed.

Lemma substitute_lookup (previousResult : option JSON)
    (params : gmap string JSON) (key : string) :
  substitute previousResult params !! key =
  match previousResult with
  | Some prev =>
      if has_id prev
      then link (default JNull (prop "id" prev)) <$> params !! key
      else params !! key
  | None => params !! key
  end.
Proof.
  unfold substitute. destruct previousResult as [prev|]; [|done].
  destruct (has_id prev); [|done]. by rewrite lookup_fmap.
Qed.

(** A value that is not the sentinel itself is never touched, whatever it
    contains. *)
Lemma substitute_keeps (previousResult : option JSON)
    (params : gmap string JSON) (key : string) (v : JSON) :
  params !! key = Some v → is_placeholder v = false →
  substitute previousResult params !! key = Some v.
Proof.
  intros Hk Hv. rewrite substitute_lookup, Hk.
  destruct previousResult as [prev|]; [|done].
  destruct (has_id prev); [|done]. simpl. unfold link. by rewrite Hv.
Qed.

Lemma substitute_absent (previousResult : option JSON)
    (params : gmap string JSON) (key : string) :
  params !! key = None → substitute previousResult params !! key = None.
Proof.
  intros Hk. rewrite substitute_lookup, Hk.
  destruct previousResult as [prev|]; [|done]. by destruct (has_id prev).
Qed.

Lemma substitute_links (prev : JSON) (params : gmap string JSON)
    (key : string) (v : JSON) :
  has_id prev = true → params !! key = Some v → is_placeholder v = true →
  substitute (Some prev) params !! key = prop "id" prev.
Proof.
  intros Hid Hk Hv. rewrite substitute_lookup, Hid, Hk. simpl.
  unfold link. rewrite Hv.
  apply has_id_spec in Hid as (m & i & -> & E & _). simpl. by rewrite E.
Qed.

Lemma substitute_without_id (prev : JSON) (params : gmap string JSON) :
  has_id prev = false → substitute (Some prev) params = params.
Proof. intros H. unfold substitute. by rewrite H. Qed.

(** The calls recorded by the loop are those of [trace]. *)
Lemma loop_calls (n : nat) (rest : list Step) :
  ∀ (i : nat) (previousResult : option JSON) (a : Acc),
    calls (loop W ctx n i rest previousResult a).1 =
    calls a ++ trace W (length (calls a)) rest previousResult.
Proof.
  induction rest as [|step rest IH]; intros i prev a; simpl.
  - by rewrite app_nil_r.
  - destruct (executeTool W (length (calls a)) (toolName step) _)
      as [err|result]; simpl; [done|].
    rewrite IH. simpl. rewrite length_app, <- app_assoc. simpl.
    by rewrite Nat.add_1_r.
Qed.

Lemma execute_invoked (planResponse : PlanResponse) :
  selectToolWithAI W <$> extractTextFromMessage (ctx_message ctx)
    = Some (inr planResponse) →
  invoked (execute W ctx) = trace W 0 (normalize planResponse) None.
Proof.
  intros (userMessage & Htext & Hplan)%planner_called.
  unfold execute. rewrite Htext, Hplan.
  pose proof (loop_calls (length (normalize planResponse))
                (normalize planResponse) 0 None start) as Hc.
  destruct (loop W ctx _ 0 _ None start) as [a [err|]]; simpl in *.
  - done.
  - by destruct (normalize planResponse).
Qed.

(** The k-th recorded call is the k-th step of the plan, with the
    parameters substituted from the outcome of the call before it. *)
Lemma trace_lookup (rest : list Step) :
  ∀ (c : nat) (previousResult : option JSON) (k : nat) (name : string)
    (ps : gmap string JSON),
    trace W c rest previousResult !! k = Some (name, ps) →
    ∃ step prev,
      rest !! k = Some step ∧ name = toolName step ∧
      ps = substitute prev (spread (toolParams step)) ∧
      (k = 0 → prev = previousResult) ∧
      (∀ j, k = S j →
         ∃ name' ps' result,
           trace W c rest previousResult !! j = Some (name', ps') ∧
           executeTool W (c + j) name' ps' = inr result ∧
           prev = Some result).
Proof.
  induction rest as [|step rest IH]; intros c prev k name ps; [done|].
  destruct k as [|k]; simpl.
  - intros [= <- <-]. exists step, prev. split_and!; try done.
  - destruct (executeTool W c (toolName step) _) as [err|result] eqn:E;
      [done|].
    intros Hk. destruct (IH _ _ _ _ _ Hk) as (s & p & Hs & Hn & Hp & H0 & HS).
    exists s, p. split_and!; [done..|].
    intros j [= <-]. destruct k as [|k].
    + exists (toolName step), (substitute prev (spread (toolParams step))),
        result.
      rewrite Nat.add_0_r. by rewrite (H0 eq_refl).
    + destruct (HS k eq_refl) as (n' & ps' & r' & Ht & He & Hr).
      exists n', ps', r'. split_and!; [done| |done].
      by rewrite <- Nat.add_succ_comm.
Qed.

(** A step is handed to the registry as soon as every call before it
    succeeded: the executor itself turns no step down. *)
Lemma trace_reached (rest : list Step) :
  ∀ (c : nat) (previousResult : option JSON) (k : nat) (step : Step),
    rest !! k = Some step →
    (∀ j, (j < k)%nat →
       ∃ name ps result,
         trace W c rest previousResult !! j = Some (name, ps) ∧
         executeTool W (c + j) name ps = inr result) →
    ∃ ps, trace W c rest previousResult !! k = Some (toolName step, ps).
Proof.
  induction rest as [|first rest IH]; intros c prev k step Hk Hbefore;
    [done|].
  destruct k as [|k]; simpl in *.
  - injection Hk as <-. by eexists.
  - destruct (Hbefore 0) as (name & ps & result & H0 & He); [lia|].
    injection H0 as <- <-. rewrite Nat.add_0_r in He. rewrite He.
    apply IH; [done|]. intros j Hj.
    destruct (Hbefore (S j)) as (name' & ps' & r' & Hj' & He'); [lia|].
    simpl in Hj'. rewrite He in Hj'. exists name', ps', r'.
    split; [done|]. by rewrite <- Nat.add_succ_comm in He'.
Qed.

End executor.

Section placeholders.
Import Executor.

(** Every recorded call, related to the plan and to the call before it. *)
Lemma invoked_lookup (W : World) (ctx : ExecutionContext)
    (planResponse : PlanResponse) (k : nat) (name : string)
    (ps : gmap string JSON) :
  selectToolWithAI W <$> extractTextFromMessage (ctx_message ctx)
    = Some (inr planResponse) →
  invoked (execute W ctx) !! k = Some (name, ps) →
  ∃ step prev,
    normalize planResponse !! k = Some step ∧ name = toolName step ∧
    ps = substitute prev (spread (toolParams step)) ∧
    (k = 0 → prev = None) ∧
    (∀ j name' ps' result,
       k = S j → invoked (execute W ctx) !! j = Some (name', ps') →
       executeTool W j name' ps' = inr result → prev = Some result).
Proof.
  intros Hplan Hk. rewrite (execute_invoked W ctx _ Hplan) in *.
  destruct (trace_lookup W _ _ _ _ _ _ Hk)
    as (step & prev & Hs & -> & -> & H0 & HS).
  exists step, prev. split_and!; try done.
  intros j name' ps' res -> Hj He.
  destruct (HS j eq_refl) as (n'' & ps'' & r'' & Hj' & He' & ->).
  rewrite Hj in Hj'. injection Hj' as <- <-.
  simpl in He'. rewrite He in He'. by injection He' as <-.
Qed.

(** C9.  Substitution is shallow and conditional.  A step of the plan is
    handed to the tool registry as soon as every call before it
    succeeded, never turned down by the executor, and it carries the
    step's own parameters, except that: a top-level value is replaced
    only if it is the sentinel string itself (an object or an array is
    passed on as it is, whatever it contains), and only when the call
    before it returned an object with a truthy [id]; on the first step,
    and after a result without such an [id], the parameters are passed
    verbatim, sentinel included. *)
Theorem substitution_shallow_and_conditional (W : World)
    (ctx : ExecutionContext) (planResponse : PlanResponse) (k : nat)
    (step : Step) :
  selectToolWithAI W <$> extractTextFromMessage (ctx_message ctx)
    = Some (inr planResponse) →
  normalize planResponse !! k = Some step →
  (∀ j, (j < k)%nat →
     ∃ name ps result,
       invoked (execute W ctx) !! j = Some (name, ps) ∧
       executeTool W j name ps = inr result) →
  ∃ ps,
    invoked (execute W ctx) !! k = Some (toolName step, ps) ∧
    (∀ key v, spread (toolParams step) !! key = Some v →
       is_placeholder v = false → ps !! key = Some v) ∧
    (∀ key v, spread (toolParams step) !! key = Some v →
       (∃ m, v = JObj m) ∨ (∃ l, v = JArr l) → ps !! key = Some v) ∧
    (∀ key, spread (toolParams step) !! key = None → ps !! key = None) ∧
    (k = 0 → ps = spread (toolParams step)) ∧
    (∀ j name' ps' prev,
       k = S j → invoked (execute W ctx) !! j = Some (name', ps') →
       executeTool W j name' ps' = inr prev →
       if has_id prev
       then ∀ key v, spread (toolParams step) !! key = Some v →
              is_placeholder v = true → ps !! key = prop "id" prev
       else ps = spread (toolParams step)).
Proof.
  intros Hplan Hstep Hbefore.
  destruct (trace_reached W (normalize planResponse) 0 None k step Hstep)
    as (ps & Hk).
  { intros j Hj. destruct (Hbefore j Hj) as (name & ps & r & Hi & He).
    exists name, ps, r. by rewrite <- (execute_invoked W ctx _ Hplan). }
  rewrite <- (execute_invoked W ctx _ Hplan) in Hk.
  destruct (invoked_lookup W ctx _ _ _ _ Hplan Hk)
    as (step' & prev & Hs & _ & -> & H0 & HS).
  rewrite Hstep in Hs. injection Hs as <-.
  eexists. split; [done|]. split_and!.
  - intros key v Hv Hn. by apply substitute_keeps.
  - intros key v Hv [[m ->]|[l ->]]; by apply substitute_keeps.
  - intros key Hv. by apply substitute_absent.
  - intros ->. by rewrite (H0 eq_refl).
  - intros j name' ps' res -> Hj He. rewrite (HS _ _ _ _ eq_refl Hj He).
    destruct (has_id res) eqn:Hid.
    + intros key v Hv Hp. by eapply substitute_links.
    + by apply substitute_without_id.
Qed.

(** C4, as the code has it.  The first step of every plan is handed to
    the tool registry with its parameters as planned, an unresolved
    sentinel included, and nothing but the registry decides whether it
    faults; in a later step every top-level sentinel becomes the [id] of
    the previous call's result when that result is an object with a
    truthy [id]. *)
Theorem placeholder_takes_previous_id (W : World) (ctx : ExecutionContext)
    (planResponse : PlanResponse) :
  selectToolWithAI W <$> extractTextFromMessage (ctx_message ctx)
    = Some (inr planResponse) →
  (∀ first rest,
     normalize planResponse = first :: rest →
     invoked (execute W ctx) !! 0
       = Some (toolName first, spread (toolParams first))) ∧
  (∀ j step name ps name' ps' prev key,
     normalize planResponse !! S j = Some step →
     invoked (execute W ctx) !! S j = Some (name, ps) →
     invoked (execute W ctx) !! j = Some (name', ps') →
     executeTool W j name' ps' = inr prev →
     has_id prev = true →
     spread (toolParams step) !! key = Some (JStr PREVIOUS_RESULT_ID) →
     ps !! key = prop "id" prev).
Proof.
  intros Hplan. split.
  - intros first rest Hn. rewrite (execute_invoked W ctx _ Hplan), Hn.
    reflexivity.
  - intros j step name ps name' ps' prev key Hs Hk Hj He Hid Hkey.
    destruct (invoked_lookup W ctx _ _ _ _ Hplan Hk)
      as (step' & prev' & Hs' & _ & -> & _ & HS).
    rewrite Hs in Hs'. injection Hs' as <-.
    rewrite (HS _ _ _ _ eq_refl Hj He).
    by eapply substitute_links.
Qed.

End placeholders.

(** ** The event bus and the background execution *)

Section bus.
Import Router.
Context (W : World).

Lemma publish_lookup (r : nat) (event : Message) (σ : State) :
  heap (publish r event σ) !! r = push event <$> heap σ !! r.
Proof. apply list_lookup_alter_eq. Qed.

Lemma finished_lookup (r : nat) (σ : State) :
  heap (finished W r σ) !! r =
  set_status {| state := completed; timestamp := now W σ; message := None |}
    <$> heap σ !! r.
Proof. apply list_lookup_alter_eq. Qed.

Lemma on_rejected_lookup (r : nat) (reason : string) (σ : State) :
  heap (on_rejected W r reason σ) !! r =
  set_status {| state := failed; timestamp := now W σ;
                message := Some reason |} <$> heap σ !! r.
Proof. apply list_lookup_alter_eq. Qed.

Lemma deliver_other (r r' : nat) (ev : BusEvent) (σ : State) :
  r ≠ r' → heap (deliver W r σ ev) !! r' = heap σ !! r'.
Proof.
  intros Hr. destruct ev; simpl; by apply list_lookup_alter_ne.
Qed.

Lemma deliver_tasks (r : nat) (ev : BusEvent) (σ : State) :
  tasks (deliver W r σ ev) = tasks σ ∧ uuids (deliver W r σ ev) = uuids σ.
Proof. by destruct ev. Qed.

(** Delivering a run of [publish] calls appends the messages in order and
    touches nothing else of the task. *)
Lemma deliver_published (r : nat) (msgs : list Message) :
  ∀ (σ : State) (t : Task),
    heap σ !! r = Some t →
    let σ' := foldl (deliver W r) σ (Publish <$> msgs) in
    heap σ' !! r =
      Some {| task_id := task_id t; contextId := contextId t;
              status := status t; history := history t ++ msgs |}
    ∧ clock σ' = clock σ ∧ tasks σ' = tasks σ ∧ uuids σ' = uuids σ.
Proof.
  induction msgs as [|m msgs IH]; intros σ t Ht; cbv zeta; csimpl.
  - rewrite app_nil_r. by destruct t.
  - assert (heap (publish r m σ) !! r = Some (push m t)) as Hp
      by (by rewrite publish_lookup, Ht).
    destruct (IH _ _ Hp) as (Hh & Hc & Hm & Hu).
    rewrite Hh, Hc, Hm, Hu. simpl. by rewrite <- app_assoc.
Qed.

End bus.

Section outcome.
Import Executor.
Context (W : World) (ctx : ExecutionContext).

(** An execution that cannot read the text of its message does nothing
    on the bus and rejects. *)
Lemma execute_rejects :
  extractTextFromMessage (ctx_message ctx) = None →
  execute W ctx =
    {| invoked := []; events := []; rejected := Some no_parts |}.
Proof. intros Htext. unfold execute. by rewrite Htext. Qed.

(** The shape of every execution that got past reading the text: some
    messages, then one [finished()]; the promise is not rejected, so the
    router's [catch] handler has nothing to handle. *)
Lemma execute_events (userMessage : string) :
  extractTextFromMessage (ctx_message ctx) = Some userMessage →
  ∃ msgs last,
    events (execute W ctx) = (Publish <$> (msgs ++ [last])) ++ [Finished] ∧
    rejected (execute W ctx) = None.
Proof.
  intros Htext. unfold execute. rewrite Htext.
  destruct (selectToolWithAI W _) as [err|planResponse].
  - eexists [], _. split; reflexivity.
  - destruct (loop W ctx _ 0 _ None start) as [a [err|]].
    + eexists (published a), _. simpl. split; [|done].
      by rewrite fmap_app, <- app_assoc.
    + destruct (normalize planResponse) as [|first rest].
      * eexists (published a), _. simpl. split; [|done].
        by rewrite fmap_app, <- app_assoc.
      * eexists (published a), _. simpl. split; [|done].
        by rewrite fmap_app, <- app_assoc.
Qed.

(** Whatever happened after the text was read, a planning or a tool
    fault included, the task the execution ran for ends [completed]
    without a failure reason; its history only grew. *)
Lemma run_job_ends_completed (r : nat) (σ : Router.State) (t : Task)
    (userMessage : string) :
  Router.heap σ !! r = Some t →
  extractTextFromMessage (ctx_message ctx) = Some userMessage →
  ∃ msgs last,
    events (execute W ctx) = (Publish <$> (msgs ++ [last])) ++ [Finished] ∧
    Router.heap
      (Router.run_job W {| Router.job_task := r;
                           Router.job_context := ctx |} σ) !! r =
    Some {| task_id := task_id t; contextId := contextId t;
            status := {| state := completed;
                         timestamp := Router.now W σ;
                         message := None |};
            history := history t ++ msgs ++ [last] |}.
Proof.
  intros Ht Htext.
  destruct (execute_events _ Htext) as (msgs & last & He & Hr).
  exists msgs, last. split; [done|].
  unfold Router.run_job. simpl. rewrite Hr, He, foldl_app.
  destruct (deliver_published W r (msgs ++ [last]) σ t Ht)
    as (Hh & Hc & _ & _).
  change (foldl (Router.deliver W r) ?s [Finished])
    with (Router.finished W r s).
  rewrite finished_lookup, Hh. simpl. unfold Router.now. by rewrite Hc.
Qed.

(** When the text cannot be read, the [catch] handler of the router marks
    the task [failed] with the TypeError's message and the history stays
    as it was. *)
Lemma run_job_ends_failed (r : nat) (σ : Router.State) (t : Task) :
  Router.heap σ !! r = Some t →
  extractTextFromMessage (ctx_message ctx) = None →
  Router.heap
    (Router.run_job W {| Router.job_task := r;
                         Router.job_context := ctx |} σ) !! r =
  Some {| task_id := task_id t; contextId := contextId t;
          status := {| state := failed; timestamp := Router.now W σ;
                       message := Some no_parts |};
          history := history t |}.
Proof.
  intros Ht Htext. unfold Router.run_job. simpl.
  rewrite (execute_rejects Htext). simpl.
  change (Router.heap (Router.on_rejected W r no_parts σ) !! r = Some
    {| task_id := task_id t; contextId := contextId t;
       status := {| state := failed; timestamp := Router.now W σ;
                    message := Some no_parts |};
       history := history t |}).
  by rewrite on_rejected_lookup, Ht.
Qed.

(** A faulting call is the last one: the steps after it are not
    attempted. *)
Lemma fault_aborts (planResponse : PlanResponse) (k : nat) (name : string)
    (ps : gmap string JSON) (err : string) :
  selectToolWithAI W <$> extractTextFromMessage (ctx_message ctx)
    = Some (inr planResponse) →
  invoked (execute W ctx) !! k = Some (name, ps) →
  executeTool W k name ps = inl err →
  length (invoked (execute W ctx)) = S k.
Proof.
  intros Hplan Hk He.
  destruct (invoked (execute W ctx) !! S k) as [[name' ps']|] eqn:Hn.
  - pose proof (execute_invoked W ctx _ Hplan) as Hi.
    rewrite Hi in Hn.
    destruct (trace_lookup W _ _ _ _ _ _ Hn)
      as (s & p & _ & _ & _ & _ & HS').
    destruct (HS' k eq_refl) as (n'' & ps'' & r'' & Hj' & He' & _).
    rewrite <- Hi, Hk in Hj'. injection Hj' as <- <-.
    simpl in He'. congruence.
  - apply lookup_ge_None in Hn. apply lookup_lt_Some in Hk. lia.
Qed.

End outcome.

(** ** The router *)

Section router.
Import Router.
Context (W : World).

Lemma ids_drawn_init : ids_drawn W init.
Proof. intros taskId r. simpl. by rewrite lookup_empty. Qed.

Lemma handleSendMessage_accepts (p : Params) (m : Message) (σ : State) :
  p_message p = Some m →
  handleSendMessage W (Some p) σ =
  (inr {| job_task := length (heap σ);
          job_context :=
            {| ctx_message := m;
               ctx_contextId :=
                 if truthy_str (p_contextId p) then default "" (p_contextId p)
                 else uuidv4 W (S (uuids σ));
               ctx_taskId := uuidv4 W (uuids σ) |} |},
   {| heap := heap σ ++
        [ {| task_id := uuidv4 W (uuids σ);
             contextId :=
               if truthy_str (p_contextId p) then default "" (p_contextId p)
               else uuidv4 W (S (uuids σ));
             status := {| state := working; timestamp := now W σ;
                          message := None |};
             history := [m] |} ];
      tasks := <[uuidv4 W (uuids σ) := length (heap σ)]> (tasks σ);
      uuids := if truthy_str (p_contextId p) then S (uuids σ)
               else S (S (uuids σ));
      clock := S (clock σ) |}).
Proof. intros Hm. unfold handleSendMessage. by rewrite Hm. Qed.

Lemma handleSendMessage_rejects (ps : option Params) (σ : State)
    (e : Thrown) (σ' : State) :
  handleSendMessage W ps σ = (inl e, σ') → σ' = σ.
Proof.
  destruct ps as [p|]; simpl; [|by intros [= _ <-]].
  destruct (p_message p); [done|]. by intros [= _ <-].
Qed.

Lemma handleSendMessage_uuids (ps : option Params) (σ : State) :
  (uuids σ ≤ uuids (handleSendMessage W ps σ).2)%nat.
Proof.
  destruct ps as [p|]; simpl; [|done].
  destruct (p_message p); simpl; [|done].
  destruct (truthy_str (p_contextId p)); lia.
Qed.

Lemma handleSendMessage_ids_drawn (ps : option Params) (σ : State) :
  ids_drawn W σ → ids_drawn W (handleSendMessage W ps σ).2.
Proof.
  intros Hσ. destruct ps as [p|]; simpl; [|done].
  destruct (p_message p) as [m|]; simpl; [|done].
  intros taskId r. simpl. rewrite lookup_insert.
  case_decide as Hid.
  - intros _. exists (uuids σ). split; [|done].
    destruct (truthy_str (p_contextId p)); lia.
  - intros Hl. destruct (Hσ _ _ Hl) as (k & Hk & ->). exists k.
    split; [|done]. destruct (truthy_str (p_contextId p)); lia.
Qed.

Lemma handleCancelTask_frame (ps : option Params) (σ : State) :
  tasks (handleCancelTask W ps σ).2 = tasks σ ∧
  uuids (handleCancelTask W ps σ).2 = uuids σ.
Proof.
  destruct ps as [p|]; simpl; [|done].
  destruct (truthy_str (p_taskId p)); [|done].
  by destruct (tasks σ !! _).
Qed.

(** The invariant survives every request. *)
Lemma handleJSONRPC_ids_drawn (req : JSONRPCRequest) (σ : State) :
  ids_drawn W σ → ids_drawn W (handleJSONRPC W req σ).1.2.
Proof.
  intros Hσ. unfold handleJSONRPC.
  destruct (is_version_2 (jsonrpc req)); [|done].
  destruct (dispatch (method req)); simpl; try done.
  - pose proof (handleSendMessage_ids_drawn (params req) σ Hσ) as H.
    by destruct (handleSendMessage W (params req) σ) as [[e|j] σ'].
  - by destruct (handleGetTaskRPC (params req) σ).
  - destruct (handleCancelTask_frame (params req) σ) as [Ht Hu].
    destruct (handleCancelTask W (params req) σ) as [[e|r] σ']; simpl in *;
      unfold ids_drawn; by rewrite Ht, Hu.
Qed.

(** A malformed envelope is answered before any dispatch: error -32600,
    no change of the router's memory, no execution started. *)
Lemma invalid_envelope (req : JSONRPCRequest) (σ : State) :
  is_version_2 (jsonrpc req) = false →
  ∃ i, handleJSONRPC W req σ =
    ({| http_status := 200; result := None;
        error := Some (RPCError (-32600) "Invalid Request");
        resp_id := i |}, σ, None).
Proof. intros H. unfold handleJSONRPC. rewrite H. eauto. Qed.

(** Past the version check every response, success or error, carries the
    request id, [null] standing in for an absent one. *)
Lemma dispatched_id (req : JSONRPCRequest) (σ : State) :
  is_version_2 (jsonrpc req) = true →
  resp_id (handleJSONRPC W req σ).1.1 = nullish_else (req_id req) JNull.
Proof.
  intros H. unfold handleJSONRPC. rewrite H.
  destruct (dispatch (method req)); simpl; try done.
  - by destruct (handleSendMessage W (params req) σ) as [[e|j] σ'].
  - by destruct (handleGetTaskRPC (params req) σ).
  - by destruct (handleCancelTask W (params req) σ) as [[e|r] σ'].
Qed.

Lemma dispatched_id_echo (req : JSONRPCRequest) (σ : State) (i : JSON) :
  is_version_2 (jsonrpc req) = true → req_id req = Some i → i ≠ JNull →
  resp_id (handleJSONRPC W req σ).1.1 = i.
Proof.
  intros Hv Hi Hn. rewrite dispatched_id, Hi by done.
  by apply nullish_else_defined.
Qed.

(** Without a usable [taskId] the cancel request is a parameter error. *)
Lemma handleCancelTask_no_id (p : Params) (σ : State) :
  p_taskId p = None ∨ p_taskId p = Some "" →
  handleCancelTask W (Some p) σ =
  (inl (RPCError (-32602) "Invalid params: taskId required"), σ).
Proof. intros [H|H]; unfold handleCancelTask; by rewrite H. Qed.

End router.

Section invariants.
Import Router.
Context (W : World).

Lemma grows_refl (t : Task) : grows t t.
Proof. by split_and!. Qed.

Lemma grows_trans (t1 t2 t3 : Task) : grows t1 t2 → grows t2 t3 → grows t1 t3.
Proof.
  intros (? & ? & ?) (? & ? & ?). split_and!; [congruence..|by etrans].
Qed.

Lemma alter_grows (f : Task → Task) (r r' : nat) (l : list Task) (t : Task) :
  (∀ t, grows t (f t)) → l !! r' = Some t →
  ∃ t', alter f r l !! r' = Some t' ∧ grows t t'.
Proof.
  intros Hf Ht. destruct (decide (r = r')) as [->|Hne].
  - exists (f t). by rewrite list_lookup_alter_eq, Ht.
  - exists t. rewrite list_lookup_alter_ne by done. split; [done|].
    apply grows_refl.
Qed.

Lemma push_grows (event : Message) (t : Task) : grows t (push event t).
Proof. split_and!; [done..|]. by apply prefix_app_r. Qed.

Lemma set_status_grows (s : TaskStatus) (t : Task) : grows t (set_status s t).
Proof. by split_and!. Qed.

(** Histories are append-only: across one step every task object keeps
    its id and context and its history is extended, never cut. *)
Lemma step_grows (σ σ' : State) (r : nat) (t : Task) :
  step W σ σ' → heap σ !! r = Some t →
  ∃ t', heap σ' !! r = Some t' ∧ grows t t'.
Proof.
  intros Hstep.
  destruct Hstep as [req σ0|r0 ev σ0|r0 reason σ0]; intros Ht.
  - unfold handleJSONRPC. destruct (is_version_2 (jsonrpc req));
      [|exists t; split; [done|apply grows_refl]].
    destruct (dispatch (method req)); simpl.
    + destruct (handleSendMessage W (params req) σ0) as [[e|j] σ1] eqn:E;
        simpl.
      * apply handleSendMessage_rejects in E as ->.
        exists t. split; [done|apply grows_refl].
      * destruct (params req) as [p|]; [|done]. simpl in E.
        destruct (p_message p) as [m|]; [|done]. injection E as <- <-.
        exists t. simpl. split; [|apply grows_refl].
        by apply lookup_app_l_Some.
    + destruct (handleGetTaskRPC (params req) σ0);
        exists t; (split; [done|apply grows_refl]).
    + destruct (params req) as [p|]; simpl;
        [|exists t; split; [done|apply grows_refl]].
      destruct (truthy_str (p_taskId p));
        [|exists t; split; [done|apply grows_refl]].
      destruct (tasks σ0 !! _) as [r1|]; simpl;
        [|exists t; split; [done|apply grows_refl]].
      apply alter_grows; [apply set_status_grows|done].
    + exists t. split; [done|apply grows_refl].
  - destruct ev as [event|]; simpl.
    + apply alter_grows; [apply push_grows|done].
    + apply alter_grows; [apply set_status_grows|done].
  - simpl. apply alter_grows; [apply set_status_grows|done].
Qed.

Lemma reaches_grows (σ σ' : State) :
  reaches W σ σ' →
  ∀ r t, heap σ !! r = Some t → ∃ t', heap σ' !! r = Some t' ∧ grows t t'.
Proof.
  induction 1 as [σ|σ1 σ2 σ3 Hstep _ IH]; intros r t Ht.
  - exists t. split; [done|apply grows_refl].
  - destruct (step_grows _ _ _ _ Hstep Ht) as (t2 & Ht2 & Hg).
    destruct (IH _ _ Ht2) as (t3 & Ht3 & Hg'). exists t3.
    split; [done|]. by eapply grows_trans.
Qed.

(** X18.  What a poller sees: along any run of the server the
    successive snapshots of one task have histories that extend one
    another. *)
Lemma snapshots_append_only (run : nat → State) (r : nat) :
  (∀ k, reaches W (run k) (run (S k))) →
  ∀ i k t t', (i ≤ k)%nat →
    heap (run i) !! r = Some t → heap (run k) !! r = Some t' →
    history t `prefix_of` history t'.
Proof.
  intros Hrun i k t t' Hik Hi Hk.
  assert (∀ d, reaches W (run i) (run (i + d))) as Hreach.
  { induction d as [|d IH]; [rewrite Nat.add_0_r; apply rtc_refl|].
    rewrite Nat.add_succ_r. eapply rtc_trans; [apply IH|apply Hrun]. }
  specialize (Hreach (k - i)).
  replace (i + (k - i))%nat with k in Hreach by lia.
  destruct (reaches_grows _ _ Hreach _ _ Hi) as (t'' & Hk' & _ & _ & Hpre).
  rewrite Hk in Hk'. by injection Hk' as <-.
Qed.

Lemma step_uuids (σ σ' : State) :
  step W σ σ' → (uuids σ ≤ uuids σ')%nat.
Proof.
  intros [req σ0|r ev σ0|r reason σ0]; [|by destruct ev|done].
  unfold handleJSONRPC. destruct (is_version_2 (jsonrpc req)); [|done].
  destruct (dispatch (method req)); simpl; [| | |done].
  - pose proof (handleSendMessage_uuids W (params req) σ0).
    by destruct (handleSendMessage W (params req) σ0) as [[e|j] σ1].
  - by destruct (handleGetTaskRPC (params req) σ0).
  - destruct (handleCancelTask_frame W (params req) σ0) as [_ Hu].
    destruct (handleCancelTask W (params req) σ0) as [[e|r1] σ1]; simpl in *;
      lia.
Qed.

Lemma reaches_uuids (σ σ' : State) :
  reaches W σ σ' → (uuids σ ≤ uuids σ')%nat.
Proof.
  induction 1 as [σ|σ1 σ2 σ3 Hstep _ IH]; [done|].
  apply step_uuids in Hstep. lia.
Qed.

Lemma step_ids_drawn (σ σ' : State) :
  step W σ σ' → ids_drawn W σ → ids_drawn W σ'.
Proof.
  intros [req σ0|r ev σ0|r reason σ0] Hσ.
  - by apply handleJSONRPC_ids_drawn.
  - by destruct ev.
  - done.
Qed.

(** Every state the server can reach stores tasks under generated ids
    only. *)
Lemma reaches_ids_drawn (σ σ' : State) :
  reaches W σ σ' → ids_drawn W σ → ids_drawn W σ'.
Proof.
  induction 1 as [σ|σ1 σ2 σ3 Hstep _ IH]; [done|].
  intros H1. apply IH. by eapply step_ids_drawn.
Qed.

Lemma reachable_ids_drawn (σ : State) : reachable W σ → ids_drawn W σ.
Proof. intros H. eapply reaches_ids_drawn; [done|apply ids_drawn_init]. Qed.

Lemma step_entries_valid (σ σ' : State) :
  step W σ σ' → entries_valid σ → entries_valid σ'.
Proof.
  intros Hstep Hσ taskId r Hr.
  assert (tasks σ !! taskId = Some r →
          ∃ t, heap σ' !! r = Some t ∧ task_id t = taskId) as Hold.
  { intros Hr0. destruct (Hσ _ _ Hr0) as (t & Ht & Hid).
    destruct (step_grows _ _ _ _ Hstep Ht) as (t' & Ht' & Hid' & _).
    exists t'. split; [done|congruence]. }
  clear Hσ. revert Hr Hold.
  destruct Hstep as [req σ0|r0 ev σ0|r0 reason σ0]; intros Hr Hold.
  - unfold handleJSONRPC in *.
    destruct (is_version_2 (jsonrpc req)); [|by apply Hold].
    destruct (dispatch (method req)); simpl in *.
    + destruct (params req) as [p|]; simpl in *; [|by apply Hold].
      destruct (p_message p) as [m|]; simpl in *; [|by apply Hold].
      rewrite lookup_insert in Hr. case_decide as Hid.
      * injection Hr as <-. subst taskId. eexists.
        split; [by apply list_lookup_middle|done].
      * by apply Hold.
    + destruct (handleGetTaskRPC (params req) σ0); by apply Hold.
    + destruct (handleCancelTask_frame W (params req) σ0) as [Ht _].
      destruct (handleCancelTask W (params req) σ0) as [[e|r1] σ1];
        simpl in *; apply Hold; by rewrite <- Ht.
    + by apply Hold.
  - apply Hold. by destruct ev.
  - by apply Hold.
Qed.

(** In every reachable state each entry of the task map names a task
    object, and that object carries the id it is stored under. *)
Lemma reachable_entries_valid (σ : State) :
  reachable W σ → entries_valid σ.
Proof.
  assert (∀ σ0 σ1, reaches W σ0 σ1 → entries_valid σ0 → entries_valid σ1)
    as Hall.
  { induction 1 as [σ0|σ1 σ2 σ3 Hstep _ IH]; [done|].
    intros H1. apply IH. by eapply step_entries_valid. }
  intros H. eapply Hall; [done|].
  intros taskId r. simpl. by rewrite lookup_empty.
Qed.

End invariants.

Section lifecycle.
Import Router.

(** C2, as the code has it.  Neither the event bus nor the cancel handler
    looks at the state of the task.  For every stored task, terminal or
    not: [publish] appends its message and leaves the status alone;
    [finished] sets the status to [completed] and leaves the history
    alone; a cancel request sets the status to [canceled] and leaves the
    history alone. *)
Theorem bus_and_cancel_ignore_state (W : World) (σ : State) (r : nat)
    (t : Task) (event : Message) (p : Params) (taskId : string) :
  heap σ !! r = Some t →
  tasks σ !! taskId = Some r →
  p_taskId p = Some taskId → taskId ≠ "" →
  heap (publish r event σ) !! r =
    Some {| task_id := task_id t; contextId := contextId t;
            status := status t; history := history t ++ [event] |} ∧
  heap (finished W r σ) !! r =
    Some {| task_id := task_id t; contextId := contextId t;
            status := {| state := completed; timestamp := now W σ;
                         message := None |};
            history := history t |} ∧
  ∃ σ', handleCancelTask W (Some p) σ = (inr r, σ') ∧
    heap σ' !! r =
      Some {| task_id := task_id t; contextId := contextId t;
              status := {| state := canceled; timestamp := now W σ;
                           message := None |};
              history := history t |}.
Proof.
  intros Ht Hid Hp Hne. split_and!.
  - by rewrite publish_lookup, Ht.
  - by rewrite finished_lookup, Ht.
  - unfold handleCancelTask. rewrite Hp. simpl.
    apply String.eqb_neq in Hne. rewrite Hne. simpl. rewrite Hid.
    eexists. split; [done|]. simpl. by rewrite list_lookup_alter_eq, Ht.
Qed.

(** C3, as the code has it.  In every state the server can reach, a
    cancel request that names a task by a non-empty id marks the task
    [canceled] whatever its state was, a terminal state included, keeps
    its history and every other task, and returns it; when no task is
    stored under the id the request fails with the RPC error -32000 and
    changes nothing. *)
Theorem cancel_task_outcomes (W : World) (p : Params) (σ : State)
    (taskId : string) :
  reachable W σ →
  p_taskId p = Some taskId → taskId ≠ "" →
  match tasks σ !! taskId with
  | Some r =>
      ∃ t σ',
        heap σ !! r = Some t ∧ task_id t = taskId ∧
        handleCancelTask W (Some p) σ = (inr r, σ') ∧
        tasks σ' = tasks σ ∧
        heap σ' !! r =
          Some {| task_id := task_id t; contextId := contextId t;
                  status := {| state := canceled; timestamp := now W σ;
                               message := None |};
                  history := history t |} ∧
        (∀ r', r' ≠ r → heap σ' !! r' = heap σ !! r')
  | None =>
      handleCancelTask W (Some p) σ =
      (inl (RPCError (-32000) ("Task not found: " +:+ taskId)), σ)
  end.
Proof.
  intros Hσ%reachable_entries_valid Hp Hne. unfold handleCancelTask.
  rewrite Hp. simpl. apply String.eqb_neq in Hne. rewrite Hne. simpl.
  destruct (tasks σ !! taskId) as [r|] eqn:Hr; [|done].
  destruct (Hσ _ _ Hr) as (t & Ht & Hid).
  eexists t, _. split_and!; [done..| |].
  - simpl. by rewrite list_lookup_alter_eq, Ht.
  - intros r' Hr'. simpl. by apply list_lookup_alter_ne.
Qed.

(** C6, as the code has it.  A send-message whose plan is one step that
    succeeds: the task is created [working] with the caller's message as
    its whole history, and once the execution is over it is [completed]
    with exactly two messages, the caller's and one agent summary.  The
    summary is a text fragment, followed by a data fragment carrying the
    step's result when that result is truthy. *)
Theorem single_step_success (W : World) (σ : State) (p : Params)
    (m : Message) (planResponse : PlanResponse) (step : Step)
    (result : JSON) :
  p_message p = Some m →
  selectToolWithAI W <$> Executor.extractTextFromMessage m
    = Some (inr planResponse) →
  Executor.normalize planResponse = [step] →
  Executor.executeTool W 0 (toolName step) (spread (toolParams step))
    = inr result →
  ∃ j σ1 task final,
    handleSendMessage W (Some p) σ = (inr j, σ1) ∧
    heap σ1 !! job_task j = Some task ∧
    state (status task) = working ∧ history task = [m] ∧
    heap (run_job W j σ1) !! job_task j =
      Some {| task_id := task_id task; contextId := contextId task;
              status := {| state := completed; timestamp := now W σ1;
                           message := None |};
              history := [m; final] |} ∧
    role final = agent ∧
    parts final =
      Some (TextPart ("Successfully executed " +:+ toolName step) ::
            (if truthy result then [DataPart result] else [])).
Proof.
  intros Hm Hplan Hsteps Hcall.
  destruct (Executor.extractTextFromMessage m) as [userMessage|] eqn:Htext;
    [|done].
  injection Hplan as Hplan.
  rewrite (handleSendMessage_accepts W p m σ Hm).
  eexists _, _, _, _. split; [reflexivity|]. simpl.
  split; [apply list_lookup_middle; reflexivity|].
  split; [reflexivity|]. split; [reflexivity|].
  unfold run_job, Executor.execute. simpl.
  rewrite Htext, Hplan, Hsteps. simpl. rewrite Hcall. simpl.
  rewrite !list_lookup_alter_eq, list_lookup_middle by reflexivity.
  simpl. split_and!; reflexivity.
Qed.

(** C10, as the code has it.  With a generator that never repeats itself,
    in every state the server can reach, an accepted send-message stores
    a new task object under an id that was absent from the store; the
    task is [working], its history is the caller's message alone, and its
    context id is the caller's when that is a non-empty string and the
    next identifier of the generator otherwise.  No send-message that
    comes later, whatever happened in between, returns the same task
    id. *)
Theorem send_message_creates_fresh_task (W : World) (σ : State)
    (p : Params) (m : Message) :
  (∀ i k, uuidv4 W i = uuidv4 W k → i = k) →
  reachable W σ →
  p_message p = Some m →
  ∃ j σ' task,
    handleSendMessage W (Some p) σ = (inr j, σ') ∧
    ctx_taskId (job_context j) = task_id task ∧
    tasks σ !! task_id task = None ∧
    heap σ !! job_task j = None ∧
    tasks σ' !! task_id task = Some (job_task j) ∧
    heap σ' !! job_task j = Some task ∧
    status task = {| state := working; timestamp := now W σ;
                     message := None |} ∧
    history task = [m] ∧
    (∀ c, p_contextId p = Some c → c ≠ "" → contextId task = c) ∧
    (p_contextId p = None ∨ p_contextId p = Some "" →
       contextId task = uuidv4 W (S (uuids σ)) ∧
       contextId task ≠ task_id task ∧
       tasks σ !! contextId task = None) ∧
    ids_drawn W σ' ∧
    (∀ σ2 p2 j2 σ2',
       reaches W σ' σ2 →
       handleSendMessage W (Some p2) σ2 = (inr j2, σ2') →
       ctx_taskId (job_context j2) ≠ task_id task).
Proof.
  intros Hinj Hσ%reachable_ids_drawn Hm.
  assert (∀ k, (uuids σ ≤ k)%nat → tasks σ !! uuidv4 W k = None) as Hfresh.
  { intros k Hk. destruct (tasks σ !! uuidv4 W k) as [r|] eqn:E; [|done].
    destruct (Hσ _ _ E) as (k' & Hk' & Heq). apply Hinj in Heq. lia. }
  pose proof (handleSendMessage_ids_drawn W (Some p) σ Hσ) as Hσ'.
  rewrite (handleSendMessage_accepts W p m σ Hm) in *.
  eexists _, _,
    {| task_id := uuidv4 W (uuids σ);
       contextId :=
         if truthy_str (p_contextId p) then default "" (p_contextId p)
         else uuidv4 W (S (uuids σ));
       status := {| state := working; timestamp := now W σ;
                    message := None |};
       history := [m] |}.
  split; [reflexivity|]. simpl in *.
  split_and!; try reflexivity.
  - by apply Hfresh.
  - by apply lookup_ge_None.
  - by rewrite lookup_insert_eq.
  - by apply list_lookup_middle.
  - intros c Hc Hne. rewrite Hc. simpl.
    apply String.eqb_neq in Hne. by rewrite Hne.
  - intros Hc.
    assert (truthy_str (p_contextId p) = false) as ->
      by (by destruct Hc as [-> | ->]).
    split_and!; [done| |apply Hfresh; lia].
    intros Heq. apply Hinj in Heq. lia.
  - done.
  - intros σ2 p2 j2 σ2' Hle%reaches_uuids H2. simpl in Hle.
    destruct (p_message p2) as [m2|]; [|done].
    injection H2 as <- _. simpl. intros Heq. apply Hinj in Heq.
    destruct (truthy_str (p_contextId p)); lia.
Qed.

End lifecycle.

(** ** The scenarios, evaluated *)

Section scenarios.
Import Executor Router Examples.

Lemma world_uuids_distinct (i k : nat) :
  uuidv4 world i = uuidv4 world k → i = k.
Proof. simpl. intros [= H]. by apply (inj pretty). Qed.

(** The two-step plan of the planner's own prompt: the account id of the
    first result is injected into the order, and the sentinel nested one
    level down is left as it is. *)
Lemma previous_id_is_injected :
  invoked (execute world (context "account then order")) =
  [ ("create_account", {[ "name" := JStr "Nike" ]});
    ("create_order", linked_order) ].
Proof. vm_compute. reflexivity. Qed.

(** A send-message whose message has no parts array is accepted and its
    task created; the execution then rejects before its [try] block,
    having called nothing, and the [catch] handler of the router marks
    the task [failed], its history as it was. *)
Lemma message_without_parts_fails_the_task :
  ∃ j,
    (handleJSONRPC world send_bare init).2 = Some j ∧
    execute world (job_context j) =
      {| invoked := []; events := []; rejected := Some no_parts |} ∧
    heap (handleJSONRPC world send_bare init).1.2 !! 0 =
      Some {| task_id := "uuid-0"; contextId := "uuid-1";
              status := {| state := working; timestamp := "T0";
                           message := None |};
              history := [bare user] |} ∧
    heap (run_job world j (handleJSONRPC world send_bare init).1.2) !! 0 =
      Some {| task_id := "uuid-0"; contextId := "uuid-1";
              status := {| state := failed; timestamp := "T1";
                           message := Some no_parts |};
              history := [bare user] |}.
Proof. eexists. split; [reflexivity|]. split_and!; by vm_compute. Qed.

(** get-task for an id the router does not know. *)
Lemma unknown_task_is_not_found :
  error (handleJSONRPC world (about "getTask" "nope") init).1.1 =
  Some (RPCError (-32000) "Task not found: nope").
Proof. reflexivity. Qed.

(** C1.  A three-step plan whose second step faults (the registry does
    not know the tool).  The third step is not attempted and exactly one
    error message follows the progress message of the first step, but the
    task does not end [failed]: the [catch] branch of the executor calls
    [finished()], the status becomes [completed], and no failure reason is
    recorded. *)
Theorem faulting_step_ends_completed :
  ∃ t,
    heap (settled "account, approve, order") !! 0 = Some t ∧
    executeTool world 1 "approve" ∅
      = inl "Tool execution failed: Tool not found: approve" ∧
    (invoked (execute world (context "account, approve, order"))).*1
      = ["create_account"; "approve"] ∧
    role <$> history t = [user; agent; agent] ∧
    extractTextFromMessage <$> history t =
      [ Some "account, approve, order";
        Some "Step 1/3: Successfully executed create_account";
        Some "Error: Tool execution failed: Tool not found: approve" ] ∧
    state (status t) = completed ∧
    message (status t) = None.
Proof. eexists. split; [vm_compute; reflexivity|]. by vm_compute. Qed.

(** C7.  A request with a bad version and the id 0 is answered with the
    error -32600 before any dispatch, yet with the id [null]: the guard
    uses [request.id || null].  The same id on a well-formed request is
    echoed, the dispatching paths using [request.id ?? null]. *)
Theorem invalid_envelope_drops_falsy_id :
  handleJSONRPC world
    {| jsonrpc := Some (JStr "1.0"); method := Some "getTask";
       params := Some (cancel "uuid-0"); req_id := Some (JNum 0) |} init =
  ({| http_status := 200; result := None;
      error := Some (RPCError (-32600) "Invalid Request");
      resp_id := JNull |}, init, None) ∧
  handleJSONRPC world
    {| jsonrpc := Some (JStr "2.0"); method := Some "getTask";
       params := Some (cancel "uuid-0"); req_id := Some (JNum 0) |} init =
  ({| http_status := 400; result := None;
      error := Some (RPCError (-32000) "Task not found: uuid-0");
      resp_id := JNum 0 |}, init, None).
Proof. split; reflexivity. Qed.

(** Against C2: on a task that is [completed], [publish] still appends
    and a cancel request still overwrites the state; and a task canceled
    while it was [working] is turned [completed], with a longer history,
    by the execution that was in flight. *)
Lemma terminal_task_is_still_written :
  ∃ t t1 t2 t3 j,
    heap (settled "Create an account for Nike") !! 0 = Some t ∧
    state (status t) = completed ∧
    heap (publish 0 (says "late") (settled "Create an account for Nike"))
      !! 0 = Some t1 ∧
    length (history t1) = S (length (history t)) ∧
    heap (handleCancelTask world (Some (cancel "uuid-0"))
            (settled "Create an account for Nike")).2 !! 0 = Some t2 ∧
    state (status t2) = canceled ∧
    (handleJSONRPC world (send "Create an account for Nike" None (JNum 1))
       init).2 = Some j ∧
    heap (run_job world j
            (handleCancelTask world (Some (cancel "uuid-0"))
               (accepted "Create an account for Nike")).2) !! 0 = Some t3 ∧
    state (status t3) = completed ∧ length (history t3) = 2.
Proof.
  eexists _, _, _, _, _.
  split; [vm_compute; reflexivity|]. split; [reflexivity|].
  split; [vm_compute; reflexivity|]. split; [reflexivity|].
  split; [vm_compute; reflexivity|]. split; [reflexivity|].
  split; [vm_compute; reflexivity|].
  split; [vm_compute; reflexivity|]. split; reflexivity.
Qed.

(** Against C3: the cancel request on a [completed] task answers with the
    task marked [canceled]; and a request with the empty string as id,
    under which no task is stored, is a parameter error, not a missing
    task. *)
Lemma cancel_overwrites_completed :
  ∃ t t',
    heap (settled "Create an account for Nike") !! 0 = Some t ∧
    state (status t) = completed ∧
    result (handleJSONRPC world (about "cancelTask" "uuid-0")
              (settled "Create an account for Nike")).1.1 = Some t' ∧
    state (status t') = canceled ∧
    tasks (settled "Create an account for Nike") !! "" = None ∧
    error (handleJSONRPC world (about "cancelTask" "")
             (settled "Create an account for Nike")).1.1 =
      Some (RPCError (-32602) "Invalid params: taskId required").
Proof.
  eexists _, _. split; [vm_compute; reflexivity|]. split; [reflexivity|].
  split; [vm_compute; reflexivity|]. split; [reflexivity|].
  split; vm_compute; reflexivity.
Qed.

(** Against C4: a single-step plan whose parameter is the sentinel.  The
    tool is invoked with the sentinel unresolved, no error message is
    published, and the task ends [completed].  And in a second step that
    follows a result without an [id] (here the empty string) the sentinel
    is passed on as well. *)
Lemma placeholder_in_first_step_is_invoked :
  ∃ t,
    selectToolWithAI world "order only" = inr order_only ∧
    invoked (execute world (context "order only")) =
      [("create_order", {[ "accountId" := JStr PREVIOUS_RESULT_ID ]})] ∧
    heap (settled "order only") !! 0 = Some t ∧
    extractTextFromMessage <$> history t =
      [Some "order only"; Some "Successfully executed create_order"] ∧
    state (status t) = completed ∧
    executeTool world 0 "ping" ∅ = inr (JStr "") ∧
    invoked (execute world (context "ping then order")) =
      [("ping", ∅);
       ("create_order", {[ "accountId" := JStr PREVIOUS_RESULT_ID ]})].
Proof.
  eexists. split; [reflexivity|]. split; [vm_compute; reflexivity|].
  split; [vm_compute; reflexivity|]. split; [reflexivity|].
  split; [reflexivity|]. split; [reflexivity|]. vm_compute. reflexivity.
Qed.

(** Against C6: a single step that succeeds with the empty string.  The
    task completes with two messages, and the summary has no data
    fragment. *)
Lemma falsy_result_has_no_data_fragment :
  ∃ t m final,
    executeTool world 0 "ping" ∅ = inr (JStr "") ∧
    heap (settled "ping") !! 0 = Some t ∧
    state (status t) = completed ∧
    history t = [m; final] ∧
    parts final = Some [TextPart "Successfully executed ping"].
Proof.
  eexists _, _, _. split; [reflexivity|].
  split; [vm_compute; reflexivity|]. split; [reflexivity|].
  split; reflexivity.
Qed.

(** Against C10: the caller supplies the empty string as context id; the
    task gets a generated one. *)
Lemma empty_context_id_is_replaced :
  ∃ t,
    result (handleJSONRPC world
              (send "Create an account for Nike" (Some "") (JNum 1))
              init).1.1 = Some t ∧
    contextId t = "uuid-1" ∧ contextId t ≠ "".
Proof. eexists. split; [vm_compute; reflexivity|]. by split. Qed.

End scenarios.

(** ** The general statements at concrete inputs *)

Section instances.
Import Executor Router Examples.

Lemma substitution_shallow_and_conditional_witness :
  ∃ ps,
    invoked (execute world (context "account then order")) !! 1
      = Some ("create_order", ps) ∧
    (∀ key v, spread (toolParams second_step) !! key = Some v →
       is_placeholder v = false → ps !! key = Some v) ∧
    (∀ key v, spread (toolParams second_step) !! key = Some v →
       (∃ m, v = JObj m) ∨ (∃ l, v = JArr l) → ps !! key = Some v) ∧
    (∀ key, spread (toolParams second_step) !! key = None →
       ps !! key = None) ∧
    (1 = 0 → ps = spread (toolParams second_step)) ∧
    (∀ j name' ps' prev,
       1 = S j →
       invoked (execute world (context "account then order")) !! j
         = Some (name', ps') →
       executeTool world j name' ps' = inr prev →
       if has_id prev
       then ∀ key v, spread (toolParams second_step) !! key = Some v →
              is_placeholder v = true → ps !! key = prop "id" prev
       else ps = spread (toolParams second_step)).
Proof.
  apply (substitution_shallow_and_conditional world
           (context "account then order") account_then_order 1 second_step).
  - reflexivity.
  - reflexivity.
  - intros j Hj. assert (j = 0) as -> by lia.
    exists "create_account", {[ "name" := JStr "Nike" ]}, account.
    split; vm_compute; reflexivity.
Defined.

Lemma placeholder_takes_previous_id_witness :
  (∀ first rest,
     normalize account_then_order = first :: rest →
     invoked (execute world (context "account then order")) !! 0
       = Some (toolName first, spread (toolParams first))) ∧
  (∀ j step name ps name' ps' prev key,
     normalize account_then_order !! S j = Some step →
     invoked (execute world (context "account then order")) !! S j
       = Some (name, ps) →
     invoked (execute world (context "account then order")) !! j
       = Some (name', ps') →
     executeTool world j name' ps' = inr prev →
     has_id prev = true →
     spread (toolParams step) !! key = Some (JStr PREVIOUS_RESULT_ID) →
     ps !! key = prop "id" prev).
Proof.
  apply (placeholder_takes_previous_id world
           (context "account then order") account_then_order).
  reflexivity.
Defined.

Lemma bus_and_cancel_ignore_state_witness :
  ∃ t,
    heap (settled "Create an account for Nike") !! 0 = Some t ∧
    state (status t) = completed ∧
    heap (publish 0 (says "late") (settled "Create an account for Nike"))
      !! 0 =
      Some {| task_id := task_id t; contextId := contextId t;
              status := status t;
              history := history t ++ [says "late"] |} ∧
    heap (finished world 0 (settled "Create an account for Nike")) !! 0 =
      Some {| task_id := task_id t; contextId := contextId t;
              status := {| state := completed; timestamp := "T2";
                           message := None |};
              history := history t |} ∧
    ∃ σ', handleCancelTask world (Some (cancel "uuid-0"))
            (settled "Create an account for Nike") = (inr 0, σ') ∧
      heap σ' !! 0 =
        Some {| task_id := task_id t; contextId := contextId t;
                status := {| state := canceled; timestamp := "T2";
                             message := None |};
                history := history t |}.
Proof.
  eexists. split; [vm_compute; reflexivity|]. split; [reflexivity|].
  apply (bus_and_cancel_ignore_state world
           (settled "Create an account for Nike") 0 _ (says "late")
           (cancel "uuid-0") "uuid-0").
  - vm_compute. reflexivity.
  - vm_compute. reflexivity.
  - reflexivity.
  - discriminate.
Defined.

Lemma cancel_task_outcomes_witness :
  ∃ t σ',
    heap (accepted "Create an account for Nike") !! 0 = Some t ∧
    task_id t = "uuid-0" ∧
    handleCancelTask world (Some (cancel "uuid-0"))
      (accepted "Create an account for Nike") = (inr 0, σ') ∧
    tasks σ' = tasks (accepted "Create an account for Nike") ∧
    heap σ' !! 0 =
      Some {| task_id := task_id t; contextId := contextId t;
              status := {| state := canceled; timestamp := "T1";
                           message := None |};
              history := history t |} ∧
    (∀ r', r' ≠ 0 →
       heap σ' !! r' = heap (accepted "Create an account for Nike") !! r').
Proof.
  apply (cancel_task_outcomes world (cancel "uuid-0")
           (accepted "Create an account for Nike") "uuid-0").
  - apply rtc_once, step_request.
  - reflexivity.
  - discriminate.
Defined.

Lemma single_step_success_witness :
  ∃ j σ1 task final,
    handleSendMessage world (Some (hello None)) init = (inr j, σ1) ∧
    heap σ1 !! job_task j = Some task ∧
    state (status task) = working ∧
    history task = [says "Create an account for Nike"] ∧
    heap (run_job world j σ1) !! job_task j =
      Some {| task_id := task_id task; contextId := contextId task;
              status := {| state := completed; timestamp := now world σ1;
                           message := None |};
              history := [says "Create an account for Nike"; final] |} ∧
    role final = agent ∧
    parts final =
      Some [TextPart "Successfully executed create_account";
            DataPart account].
Proof.
  apply (single_step_success world init (hello None)
           (says "Create an account for Nike")
           (single "create_account" {[ "name" := JStr "Nike" ]})
           (call "create_account" {[ "name" := JStr "Nike" ]}) account);
    reflexivity.
Defined.

Lemma send_message_creates_fresh_task_witness :
  ∃ j σ' task,
    handleSendMessage world (Some (hello (Some "ctx-9"))) init = (inr j, σ') ∧
    ctx_taskId (job_context j) = task_id task ∧
    tasks init !! task_id task = None ∧
    heap init !! job_task j = None ∧
    tasks σ' !! task_id task = Some (job_task j) ∧
    heap σ' !! job_task j = Some task ∧
    status task = {| state := working; timestamp := "T0";
                     message := None |} ∧
    history task = [says "Create an account for Nike"] ∧
    (∀ c, Some "ctx-9" = Some c → c ≠ "" → contextId task = c) ∧
    (Some "ctx-9" = None ∨ Some "ctx-9" = Some "" →
       contextId task = "uuid-1" ∧
       contextId task ≠ task_id task ∧
       tasks init !! contextId task = None) ∧
    ids_drawn world σ' ∧
    (∀ σ2 p2 j2 σ2',
       reaches world σ' σ2 →
       handleSendMessage world (Some p2) σ2 = (inr j2, σ2') →
       ctx_taskId (job_context j2) ≠ task_id task).
Proof.
  apply (send_message_creates_fresh_task world init (hello (Some "ctx-9"))
           (says "Create an account for Nike")).
  - apply world_uuids_distinct.
  - apply rtc_refl.
  - reflexivity.
Defined.

End instances.

(** ** The client reconciler *)

Section reconciler.
Import Client.

Lemma agentMessages_app (h1 h2 : list Message) :
  agentMessages (h1 ++ h2) = agentMessages h1 ++ agentMessages h2.
Proof. apply filter_app. Qed.

(** Fetching a task whose history extends what was counted so far yields
    exactly the agent messages that came after. *)
Lemma newMessages_suffix (h : list Message) (task : Task) :
  h `prefix_of` history task →
  agentMessages (history task) =
    agentMessages h ++ newMessages (length (agentMessages h)) task ∧
  nextShown (length (agentMessages h)) task =
    length (agentMessages (history task)).
Proof.
  intros [more Hh]. unfold newMessages, nextShown.
  rewrite Hh, agentMessages_app, length_app.
  case_bool_decide as Hlt.
  - by rewrite drop_app_length.
  - assert (agentMessages more = []) as ->
      by (apply length_zero_iff_nil; lia).
    by rewrite app_nil_r, Nat.add_0_r.
Qed.

(** Fetching the same task again yields nothing. *)
Lemma newMessages_again (shown : nat) (task : Task) :
  newMessages (nextShown shown task) task = [].
Proof.
  unfold newMessages, nextShown.
  case_bool_decide as Hlt; case_bool_decide as Hlt'; try done; lia.
Qed.

(** The slices of a session are what the agent added to the history
    between the stored task and the last task fetched. *)
Lemma poll_emitted (fetch : nat → Fetched) (attempts shown : nat)
    (existing : option Task) :
  shown = length (agentMessages (known existing)) →
  (∀ k t, (attempts ≤ k)%nat → fetch k = Got t →
     known existing `prefix_of` history t) →
  (∀ i k t t', (i ≤ k)%nat → fetch i = Got t → fetch k = Got t' →
     history t `prefix_of` history t') →
  agentMessages (known (stored (poll fetch attempts shown existing))) =
  agentMessages (known existing) ++
  emitted (poll fetch attempts shown existing).
Proof.
  funelim (poll fetch attempts shown existing); intros -> Hfirst Hchain;
    simpl.
  - by rewrite app_nil_r.
  - by rewrite app_nil_r.
  - match goal with E : fetch _ = Got _ |- _ => rename E into Hf end.
    destruct (newMessages_suffix (known existing) task) as [Hs Hn];
      [by eapply Hfirst|].
    match goal with IH : _ → _ → _ → agentMessages _ = _ |- _ =>
      rewrite IH end.
    + simpl. rewrite Hs. by rewrite app_assoc.
    + by rewrite Hn.
    + intros k t Hk Ht. simpl. eapply (Hchain attempts k); [lia|done..].
    + done.
  - destruct (newMessages_suffix (known existing) task) as [Hs Hn];
      [by eapply Hfirst|].
    by rewrite app_nil_r.
  - destruct (newMessages_suffix (known existing) task) as [Hs Hn];
      [by eapply Hfirst|].
    by rewrite app_nil_r.
  - destruct (newMessages_suffix (known existing) task) as [Hs Hn];
      [by eapply Hfirst|].
    by rewrite app_nil_r.
Qed.

(** What is drawn: one bubble for each emitted message that has a
    non-empty text, in order, then at most the notice of a failed task. *)
Lemma poll_chat (fetch : nat → Fetched) (attempts shown : nat)
    (existing : option Task) :
  ∃ notice,
    chat (poll fetch attempts shown existing) =
      (emitted (poll fetch attempts shown existing) ≫= display) ++ notice ∧
    (notice = [] ∨ ∃ text, notice = [SystemBubble text]).
Proof.
  funelim (poll fetch attempts shown existing); csimpl;
    try (exists []; split; [by rewrite ?app_nil_r|by left]).
  - match goal with IH : ∃ _, _ |- _ =>
      destruct IH as (notice & -> & Hn) end.
    exists notice. split; [|done]. by rewrite bind_app, <- app_assoc.
  - eexists [_]. split; [rewrite app_nil_r; reflexivity|]. right. by eexists.
Qed.

(** A whole session, read off the answers of the server: [k] fetches
    that showed [working], then the fetch that delivered [last], after
    which the session ends (on the state of [last], on the attempt bound,
    or because the next request failed). *)
Lemma poll_session (fetch : nat → Fetched) (k : nat) :
  ∀ (attempts shown : nat) (existing : option Task) (last : Task),
    shown = length (agentMessages (known existing)) →
    (∀ j t, (attempts ≤ j)%nat → fetch j = Got t →
       known existing `prefix_of` history t) →
    (∀ i j t t', (i ≤ j)%nat → fetch i = Got t → fetch j = Got t' →
       history t `prefix_of` history t') →
    (attempts + k < maxAttempts)%nat →
    (∀ i, (i < k)%nat →
       ∃ t, fetch (attempts + i) = Got t ∧ state (status t) = working) →
    fetch (attempts + k) = Got last →
    state (status last) ≠ working ∨ S (attempts + k) = maxAttempts ∨
      (∃ reason, fetch (S (attempts + k)) = Thrown reason) →
    (S k ≤ fetches (poll fetch attempts shown existing) ≤ S (S k))%nat ∧
    (state (status last) ≠ working ∨ S (attempts + k) = maxAttempts →
     fetches (poll fetch attempts shown existing) = S k) ∧
    stored (poll fetch attempts shown existing) = Some last ∧
    agentMessages (history last) =
      agentMessages (known existing) ++
      emitted (poll fetch attempts shown existing).
Proof.
  induction k as [|k IH];
    intros attempts shown existing last -> Hfirst Hchain Hlt Hw Hk Hend;
    simp poll; destruct (decide (maxAttempts ≤ attempts)%nat) as [Hge|Hge];
    try lia; simpl.
  - rewrite Nat.add_0_r in Hk, Hend. rewrite Hk. simpl.
    destruct (newMessages_suffix (known existing) last) as [Hs Hn];
      [by eapply Hfirst|].
    destruct (state (status last)) eqn:Hstate; simpl;
      try (rewrite app_nil_r; split_and!; [lia|lia|done..]).
    simp poll.
    destruct (decide (maxAttempts ≤ S attempts)%nat) as [Hge'|Hge']; simpl.
    + rewrite app_nil_r. split_and!; [lia|lia|done..].
    + destruct Hend as [?|[?|[reason Hthrown]]]; [done|lia|].
      rewrite Hthrown. simpl. rewrite app_nil_r.
      split_and!; [lia|lia| |done..].
      intros [?|?]; [done|lia].
  - destruct (Hw 0) as (t & Ht & Hs); [lia|].
    rewrite Nat.add_0_r in Ht. rewrite Ht. simpl. rewrite Hs. simpl.
    destruct (newMessages_suffix (known existing) t) as [Hsl Hn];
      [by eapply Hfirst|].
    destruct (IH (S attempts) (nextShown (length (agentMessages (known existing))) t)
                (Some t) last) as (Hf & Hf' & -> & Hall).
    + by rewrite Hn.
    + intros j t' Hj Ht'. simpl. eapply (Hchain attempts j); [lia|done..].
    + done.
    + lia.
    + intros i Hi. destruct (Hw (S i)) as (t' & Ht' & Hs'); [lia|].
      exists t'. by rewrite <- Nat.add_succ_comm in Ht'.
    + by rewrite <- Nat.add_succ_comm in Hk.
    + by rewrite <- !Nat.add_succ_comm in Hend.
    + split_and!; [lia|lia| |done|].
      * intros Hcase. rewrite Hf'; [done|].
        by rewrite <- !Nat.add_succ_comm in Hcase.
      * simpl in Hall. by rewrite Hall, Hsl, app_assoc.
Qed.

(** The task a session ends on is the one it started with or one that
    was fetched. *)
Lemma poll_stored (fetch : nat → Fetched) (attempts shown : nat)
    (existing : option Task) :
  stored (poll fetch attempts shown existing) = existing ∨
  ∃ j t, fetch j = Got t ∧
    stored (poll fetch attempts shown existing) = Some t.
Proof.
  funelim (poll fetch attempts shown existing); simpl;
    try (by left); try (right; by eexists _, _).
  match goal with IH : _ ∨ _ |- _ => destruct IH as [->|IH] end;
    [right; by eexists _, _|by right].
Qed.

(** Polling a stored task again while the server keeps answering the
    same history emits nothing, however long the session lasts. *)
Lemma pollTask_again (again : nat → Fetched) (last : Task) :
  (∀ j t, again j = Got t → history t = history last) →
  emitted (pollTask again (Some last)) = [].
Proof.
  intros Hsame.
  pose proof (poll_emitted again 0 _ (Some last) eq_refl) as Hall.
  fold (pollTask again (Some last)) in Hall.
  assert (agentMessages (known (stored (pollTask again (Some last)))) =
          agentMessages (history last)) as Hst.
  { destruct (poll_stored again 0 (length (agentMessages (known (Some last))))
                (Some last)) as [Hs|(j & t & Hj & Hs)];
      fold (pollTask again (Some last)) in Hs; rewrite Hs; simpl; [done|].
    by rewrite (Hsame _ _ Hj). }
  rewrite Hst in Hall. simpl in Hall.
  symmetry. apply (app_inv_head (agentMessages (history last))).
  rewrite app_nil_r. apply Hall.
  - intros k t _ Hk. by rewrite (Hsame _ _ Hk).
  - intros i k t t' _ Hi Hk. by rewrite (Hsame _ _ Hi), (Hsame _ _ Hk).
Qed.

(** C5, as the code has it.  A polling session over histories that only
    grow: [k] fetches show the task [working], then the fetch that
    delivers [last], after which the session ends (on the state of
    [last], on the attempt bound, or because the next request fails).
    The session made those requests and stored [last].  Whatever the
    cadence and however the history was cut, the slices it emitted, one
    after the other, are exactly the agent messages of [last] beyond
    those of the task stored when the session started, in history order;
    they are all the agent messages of [last] only when that task held
    none.  No history entry is emitted twice; each emitted message goes
    through the display routine once, in order.  Fetching a task a second
    time emits nothing: the slice of the second fetch is empty, and a new
    session on the stored task emits nothing for as long as the server
    answers the same history. *)
Theorem reconciler_emits_agent_messages (fetch : nat → Fetched)
    (existing : option Task) (k : nat) (last : Task) :
  (∀ j t, fetch j = Got t → known existing `prefix_of` history t) →
  (∀ i j t t', (i ≤ j)%nat → fetch i = Got t → fetch j = Got t' →
     history t `prefix_of` history t') →
  (k < 30)%nat →
  (∀ i, (i < k)%nat →
     ∃ t, fetch i = Got t ∧ state (status t) = working) →
  fetch k = Got last →
  state (status last) ≠ working ∨ k = 29 ∨
    (∃ reason, fetch (S k) = Thrown reason) →
  stored (pollTask fetch existing) = Some last ∧
  (S k ≤ fetches (pollTask fetch existing) ≤ S (S k))%nat ∧
  (state (status last) ≠ working ∨ k = 29 →
   fetches (pollTask fetch existing) = S k) ∧
  agentMessages (history last) =
    agentMessages (known existing) ++ emitted (pollTask fetch existing) ∧
  emitted (pollTask fetch existing) =
    drop (length (agentMessages (known existing)))
      (agentMessages (history last)) ∧
  (agentMessages (known existing) = [] →
   emitted (pollTask fetch existing) = agentMessages (history last)) ∧
  (NoDup (history last) → NoDup (emitted (pollTask fetch existing))) ∧
  (∃ notice,
     chat (pollTask fetch existing) =
       (emitted (pollTask fetch existing) ≫= display) ++ notice ∧
     (notice = [] ∨ ∃ text, notice = [SystemBubble text])) ∧
  (∀ shown task, newMessages (nextShown shown task) task = []) ∧
  (∀ again,
     (∀ j t, again j = Got t → history t = history last) →
     emitted (pollTask again (Some last)) = []).
Proof.
  intros Hfirst Hchain Hk Hw Hlast Hend.
  assert (state (status last) ≠ working ∨ S (0 + k) = maxAttempts ∨
          (∃ reason, fetch (S (0 + k)) = Thrown reason)) as Hend'.
  { unfold maxAttempts. simpl.
    destruct Hend as [?|[Hk29|?]]; [by left|right; left; lia|by right; right]. }
  destruct (poll_session fetch k 0
              (length (agentMessages (known existing))) existing last
              eq_refl (λ j t _, Hfirst j t) Hchain Hk Hw Hlast Hend')
    as (Hf & Hf' & Hstored & Hall).
  fold (pollTask fetch existing) in Hf, Hf', Hstored, Hall.
  split_and!; [done|lia|lia| |done| | | | | |].
  - intros Hcase. apply Hf'. unfold maxAttempts.
    destruct Hcase as [?|Hk29]; [by left|right; lia].
  - by rewrite Hall, drop_app_length.
  - intros Hnone. by rewrite Hall, Hnone.
  - intros Hnodup.
    assert (NoDup (agentMessages (history last))) as Hnd
      by (by apply NoDup_filter).
    rewrite Hall in Hnd. by apply NoDup_app in Hnd as (_ & _ & ?).
  - apply poll_chat.
  - apply newMessages_again.
  - intros again Hsame. by apply pollTask_again.
Qed.

(** C5, as it was stated, fails whenever the task stored at the start of
    the session already holds an agent message: that message is counted
    as shown and never emitted by the session.  When it is the whole
    first history, [handleTask] has not shown it either (its guard asks
    for a history longer than one), so the client never shows it. *)
Lemma agent_message_of_the_stored_task_is_not_emitted :
  stored (pollTask Examples.answered (Some Examples.lone)) =
    Some (Examples.snapshot completed
            [Examples.says_agent "a"; Examples.says_agent "b"]) ∧
  agentMessages
    (history (Examples.snapshot completed
                [Examples.says_agent "a"; Examples.says_agent "b"])) =
    [Examples.says_agent "a"; Examples.says_agent "b"] ∧
  emitted (pollTask Examples.answered (Some Examples.lone)) =
    [Examples.says_agent "b"] ∧
  emitted (handleTask Examples.answered Examples.lone) =
    [Examples.says_agent "b"] ∧
  emitted (pollTask Examples.answered (Some Examples.lone)) ≠
    agentMessages
      (history (Examples.snapshot completed
                  [Examples.says_agent "a"; Examples.says_agent "b"])) ∧
  emitted (handleTask Examples.answered Examples.lone) ≠
    agentMessages
      (history (Examples.snapshot completed
                  [Examples.says_agent "a"; Examples.says_agent "b"])).
Proof. split_and!; by vm_compute. Qed.

(** A session never makes more requests than the attempt bound leaves. *)
Lemma poll_bounded (fetch : nat → Fetched) (attempts shown : nat)
    (existing : option Task) :
  (fetches (poll fetch attempts shown existing)
     ≤ maxAttempts - attempts)%nat.
Proof.
  funelim (poll fetch attempts shown existing); simpl;
    unfold maxAttempts in *; lia.
Qed.

(** X22.  [pollTask] stops at the first fetch that shows a state other
    than [working]: after [k] working fetches and one terminal one it has
    made [k + 1] requests, stored the last task and not timed out. *)
Lemma poll_stops_at_terminal (fetch : nat → Fetched) (k : nat) :
  ∀ (attempts shown : nat) (existing : option Task) (last : Task),
    (attempts + k < maxAttempts)%nat →
    (∀ i, (i < k)%nat →
       ∃ t, fetch (attempts + i) = Got t ∧ state (status t) = working) →
    fetch (attempts + k) = Got last →
    terminal (state (status last)) = true →
    fetches (poll fetch attempts shown existing) = S k ∧
    stored (poll fetch attempts shown existing) = Some last ∧
    timed_out (poll fetch attempts shown existing) = false.
Proof.
  induction k as [|k IH]; intros attempts shown existing last Hlt Hw Hk HT;
    simp poll; destruct (decide (maxAttempts ≤ attempts)%nat) as [Hge|Hge];
    try lia; simpl.
  - rewrite Nat.add_0_r in Hk. rewrite Hk. simpl.
    by destruct (state (status last)).
  - destruct (Hw 0) as (t & Ht & Hs); [lia|].
    rewrite Nat.add_0_r in Ht. rewrite Ht. simpl. rewrite Hs. simpl.
    destruct (IH (S attempts) (nextShown shown t) (Some t) last)
      as (-> & -> & ->); try done.
    + lia.
    + intros i Hi. destruct (Hw (S i)) as (t' & Ht' & Hs'); [lia|].
      exists t'. by rewrite <- Nat.add_succ_comm in Ht'.
    + by rewrite <- Nat.add_succ_comm in Hk.
Qed.

(** X23.  [handleTask] of the standalone client, with the polling it
    starts: over histories that only grow, the messages shown are the
    whole agent part of the last history, provided the first response is
    not a lone agent message. *)
Lemma handleTask_emitted (fetch : nat → Fetched) (task : Task) :
  (1 < length (history task))%nat ∨ agentMessages (history task) = [] →
  (∀ k t, fetch k = Got t → history task `prefix_of` history t) →
  (∀ i k t t', (i ≤ k)%nat → fetch i = Got t → fetch k = Got t' →
     history t `prefix_of` history t') →
  emitted (handleTask fetch task) =
  agentMessages (known (stored (handleTask fetch task))).
Proof.
  intros Hfirst Hpre Hchain. unfold handleTask. simpl.
  assert ((if bool_decide (1 < length (history task))%nat
           then agentMessages (history task) else [])
          = agentMessages (history task)) as ->.
  { case_bool_decide; [done|]. by destruct Hfirst as [?| ->]; [lia|]. }
  case_bool_decide; simpl.
  - unfold pollTask.
    rewrite (poll_emitted fetch 0 _ (Some task)); [done|done| |done].
    intros k t _. apply Hpre.
  - by rewrite app_nil_r.
Qed.

(** C8.  The loop built on [setInterval] has no attempt bound and clears
    the timer only on [completed], [failed] or a failed request: on a
    task that was canceled it is still armed after any number of periods,
    having sent one request per period.  [pollTask] on the same server
    stops after its first request. *)
Theorem interval_polling_never_stops (n : nat) :
  armed (elapse Examples.stuck n
           (startTaskPolling (Some Examples.first_response))) = true ∧
  requests (elapse Examples.stuck n
              (startTaskPolling (Some Examples.first_response))) = n ∧
  fetches (pollTask Examples.stuck (Some Examples.first_response)) = 1.
Proof.
  split_and!; [| |reflexivity].
  - assert (∀ p, armed p = true → currentTask p = true →
              armed (elapse Examples.stuck n p) = true) as H; [|by apply H].
    induction n as [|n IH]; intros p Ha Hc; simpl; [done|].
    rewrite Ha. apply IH; unfold fire; by rewrite Hc.
  - assert (∀ p, armed p = true → currentTask p = true →
              requests (elapse Examples.stuck n p) = (requests p + n)%nat)
      as H; [|by apply H].
    induction n as [|n IH]; intros p Ha Hc; simpl; [lia|].
    rewrite Ha, IH; unfold fire; rewrite Hc; simpl; [lia|done..].
Qed.

Lemma reconciler_emits_agent_messages_witness :
  stored (pollTask Examples.growing (Some Examples.first_response)) =
    Some Examples.final ∧
  (3 ≤ fetches (pollTask Examples.growing (Some Examples.first_response))
     ≤ 4)%nat ∧
  (state (status Examples.final) ≠ working ∨ 2 = 29 →
   fetches (pollTask Examples.growing (Some Examples.first_response)) = 3) ∧
  agentMessages (history Examples.final) =
    agentMessages (known (Some Examples.first_response)) ++
    emitted (pollTask Examples.growing (Some Examples.first_response)) ∧
  emitted (pollTask Examples.growing (Some Examples.first_response)) =
    drop (length (agentMessages (known (Some Examples.first_response))))
      (agentMessages (history Examples.final)) ∧
  (agentMessages (known (Some Examples.first_response)) = [] →
   emitted (pollTask Examples.growing (Some Examples.first_response)) =
   agentMessages (history Examples.final)) ∧
  (NoDup (history Examples.final) →
   NoDup (emitted (pollTask Examples.growing
                     (Some Examples.first_response)))) ∧
  (∃ notice,
     chat (pollTask Examples.growing (Some Examples.first_response)) =
       (emitted (pollTask Examples.growing (Some Examples.first_response))
          ≫= display) ++ notice ∧
     (notice = [] ∨ ∃ text, notice = [SystemBubble text])) ∧
  (∀ shown task, newMessages (nextShown shown task) task = []) ∧
  (∀ again,
     (∀ j t, again j = Got t → history t = history Examples.final) →
     emitted (pollTask again (Some Examples.final)) = []).
Proof.
  apply (reconciler_emits_agent_messages Examples.growing
           (Some Examples.first_response) 2 Examples.final).
  - intros k t [= <-]. simpl. by eexists.
  - intros i k t t' Hik Hi Hk. unfold Examples.growing in Hi, Hk.
    injection Hi as <-. injection Hk as <-.
    unfold Examples.snapshot. cbn [history].
    do 2 apply prefix_cons.
    replace k with (i + (k - i))%nat by lia.
    rewrite seq_app. eexists. apply (fmap_app _ (seq 1 i)).
  - lia.
  - intros i Hi. eexists. split; [reflexivity|].
    simpl. by rewrite bool_decide_eq_true_2 by lia.
  - reflexivity.
  - by left.
Defined.

End reconciler.

(** ** What an execution reports on the bus *)

Section reports.
Import Executor Shape.
Context (W : World) (ctx : ExecutionContext).

(** The loop, from any state: the calls that succeeded, one progress
    message per call of a plan of several steps, and the call that
    stopped it, if one did. *)
Lemma loop_shape (n : nat) (rest : list Step) :
  ∀ (i : nat) (prev : option JSON) (a : Acc),
  ∃ done : list (string * JSON),
    results (loop W ctx n i rest prev a).1 = results a ++ done ∧
    published (loop W ctx n i rest prev a).1 =
      published a ++
      (if bool_decide (1 < n)
       then imap (λ j tr, createAgentMessage W (length (published a) + j)
                            (stepText (i + j) n tr.1) tr.2
                            (ctx_contextId ctx) (ctx_taskId ctx)) done
       else []) ∧
    (∀ j tr, done !! j = Some tr →
       ∃ ps,
         calls (loop W ctx n i rest prev a).1 !! (length (calls a) + j)
           = Some (tr.1, ps) ∧
         executeTool W (length (calls a) + j) tr.1 ps = inr tr.2) ∧
    length (calls (loop W ctx n i rest prev a).1) =
      (length (calls a) + length done +
       (if (loop W ctx n i rest prev a).2 is Some _ then 1 else 0))%nat ∧
    match (loop W ctx n i rest prev a).2 with
    | None => length done = length rest
    | Some err =>
        ∃ name ps,
          calls (loop W ctx n i rest prev a).1
            !! (length (calls a) + length done) = Some (name, ps) ∧
          executeTool W (length (calls a) + length done) name ps = inl err
    end.
Proof.
  induction rest as [|step rest IH]; intros i prev a.
  - exists []. simpl. split_and!; try done.
    + by rewrite app_nil_r.
    + destruct (bool_decide (1 < n)); by rewrite app_nil_r.
    + lia.
  - simpl.
    destruct (executeTool W (length (calls a)) (toolName step) _)
      as [err|result] eqn:E; simpl.
    + exists []. simpl. rewrite !Nat.add_0_r.
      split_and!; try done.
      * by rewrite app_nil_r.
      * destruct (bool_decide (1 < n)); by rewrite app_nil_r.
      * rewrite length_app. simpl. lia.
      * eexists _, _. split; [by apply list_lookup_middle|done].
    + set (a2 := {| results := results a ++ [(toolName step, result)];
           calls := calls a ++
             [(toolName step,
               substitute prev (spread (toolParams step)))];
           published :=
             if bool_decide (1 < n)
             then published a ++
               [createAgentMessage W (length (published a))
                  (stepText i n (toolName step)) result
                  (ctx_contextId ctx) (ctx_taskId ctx)]
             else published a |}).
      pose proof (loop_calls W ctx n rest (S i) (Some result) a2) as Hcalls.
      destruct (IH (S i) (Some result) a2)
        as (done & Hres & Hpub & Hdone & Hlen & Hend).
      assert (length (calls a2) = S (length (calls a))) as Hl2
        by (simpl; rewrite length_app; simpl; lia).
      exists ((toolName step, result) :: done). split_and!.
      * rewrite Hres. simpl. by rewrite <- app_assoc.
      * rewrite Hpub. simpl. destruct (bool_decide (1 < n)); [|done].
        rewrite <- app_assoc, length_app. simpl.
        rewrite !Nat.add_0_r. do 2 f_equal.
        apply imap_ext. intros j tr _. simpl.
        replace (length (published a) + 1 + j)%nat
          with (length (published a) + S j)%nat by lia.
        by replace (S (i + j)) with (i + S j)%nat by lia.
      * intros [|j] tr Hj.
        -- injection Hj as <-. simpl. eexists. rewrite Nat.add_0_r.
           split; [|done]. rewrite Hcalls.
           rewrite lookup_app_l by lia.
           by apply list_lookup_middle.
        -- destruct (Hdone j tr Hj) as (ps & Hc & He). exists ps.
           rewrite Hl2 in Hc, He.
           by replace (length (calls a) + S j)%nat
             with (S (length (calls a)) + j)%nat by lia.
      * rewrite Hlen, Hl2. simpl. lia.
      * destruct (loop W ctx n (S i) rest (Some result) a2).2 as [err|].
        -- destruct Hend as (name & ps & Hc & He). exists name, ps.
           rewrite Hl2 in Hc, He. simpl.
           by replace (length (calls a) + S (length done))%nat
             with (S (length (calls a)) + length done)%nat by lia.
        -- simpl. by rewrite Hend.
Qed.

Lemma createAgentMessage_shape (k : nat) (text : string) (data : JSON) :
  text ≠ "" →
  agent_message ctx
    (createAgentMessage W k text data (ctx_contextId ctx) (ctx_taskId ctx)).
Proof.
  intros Htext. split_and!; try done. exists text. split; [done|]. simpl.
  destruct (truthy data) eqn:Hd; [right; by exists data|by left].
Qed.

Lemma progress_shape (n : nat) (done : list (string * JSON)) :
  Forall (agent_message ctx) (progress W ctx n done).
Proof.
  unfold progress. destruct (bool_decide (1 < n)); [|done].
  apply Forall_lookup. intros j m Hm.
  rewrite list_lookup_imap in Hm.
  destruct (done !! j) as [tr|]; [|done]. injection Hm as <-.
  by apply createAgentMessage_shape.
Qed.

Lemma summary_nonempty (steps : list Step) (first : Step) :
  summary steps first ≠ "".
Proof. unfold summary. by destruct (bool_decide (1 < length steps)). Qed.

(** Every execution that got a plan, in one statement: the calls that
    succeeded, and how it ended. *)
Lemma execute_report (planResponse : PlanResponse) :
  selectToolWithAI W <$> extractTextFromMessage (ctx_message ctx)
    = Some (inr planResponse) →
  ∃ done : list (string * JSON),
    (∀ j tr, done !! j = Some tr →
       ∃ ps, invoked (execute W ctx) !! j = Some (tr.1, ps) ∧
         executeTool W j tr.1 ps = inr tr.2) ∧
    ((∃ first,
        head (normalize planResponse) = Some first ∧
        length done = length (normalize planResponse) ∧
        length (invoked (execute W ctx)) = length done ∧
        events (execute W ctx) =
          (Publish <$> progress W ctx (length (normalize planResponse)) done)
          ++ [Publish
                (createAgentMessage W
                   (created (length (normalize planResponse)) done)
                   (summary (normalize planResponse) first)
                   (if bool_decide (length (normalize planResponse) = 1)
                    then default JNull (snd <$> head done)
                    else JArr (result_value <$> done))
                   (ctx_contextId ctx) (ctx_taskId ctx));
              Finished]) ∨
     (∃ err name ps,
        (invoked (execute W ctx) !! length done = Some (name, ps) ∧
         executeTool W (length done) name ps = inl err ∧
         length (invoked (execute W ctx)) = S (length done)
         ∨ normalize planResponse = [] ∧ done = [] ∧
           invoked (execute W ctx) = [] ∧ err = no_first_step) ∧
        events (execute W ctx) =
          (Publish <$> progress W ctx (length (normalize planResponse)) done)
          ++ [Publish
                (createAgentMessage W
                   (created (length (normalize planResponse)) done)
                   ("Error: " +:+ err) JNull
                   (ctx_contextId ctx) (ctx_taskId ctx));
              Finished])).
Proof.
  intros (userMessage & Htext & Hplan)%planner_called.
  unfold execute. rewrite Htext, Hplan.
  destruct (loop_shape (length (normalize planResponse))
              (normalize planResponse) 0 None start)
    as (done & Hres & Hpub & Hdone & Hlen & Hend).
  simpl in Hres, Hpub, Hdone, Hlen, Hend.
  assert (published
            (loop W ctx (length (normalize planResponse)) 0
               (normalize planResponse) None start).1 =
          progress W ctx (length (normalize planResponse)) done) as Hp
    by (rewrite Hpub; reflexivity).
  assert (length (progress W ctx (length (normalize planResponse)) done) =
          created (length (normalize planResponse)) done) as Hc.
  { unfold progress, created.
    destruct (bool_decide (1 < length (normalize planResponse))); [|done].
    by rewrite length_imap. }
  exists done.
  destruct (loop W ctx (length (normalize planResponse)) 0
              (normalize planResponse) None start) as [a [err|]];
    simpl in *.
  - split; [done|]. right. destruct Hend as (name & ps & Hcall & He).
    exists err, name, ps. split; [left; split_and!; [done..|lia]|].
    by rewrite Hp, Hc.
  - destruct (normalize planResponse) as [|first rest] eqn:Hn.
    + split; [done|]. right.
      assert (done = []) as -> by (by apply length_zero_iff_nil).
      exists no_first_step, "", ∅. simpl in *.
      split; [right; split_and!; try done; by apply length_zero_iff_nil|].
      by rewrite Hp.
    + split; [done|]. left. exists first. simpl.
      split_and!; [done|done|lia|]. by rewrite Hp, Hc, Hres.
Qed.

(** Every message of an execution has the shape of an agent message for
    its context. *)
Lemma execute_messages (userMessage : string) :
  extractTextFromMessage (ctx_message ctx) = Some userMessage →
  ∃ msgs last,
    events (execute W ctx) = (Publish <$> (msgs ++ [last])) ++ [Finished] ∧
    Forall (agent_message ctx) (msgs ++ [last]).
Proof.
  intros Htext.
  destruct (selectToolWithAI W userMessage) as [err|planResponse] eqn:Hplan.
  - unfold execute. rewrite Htext, Hplan. eexists [], _.
    split; [reflexivity|].
    apply Forall_singleton. by apply createAgentMessage_shape.
  - assert (selectToolWithAI W <$> extractTextFromMessage (ctx_message ctx)
            = Some (inr planResponse)) as Hplanned
      by (by rewrite Htext; simpl; rewrite Hplan).
    destruct (execute_report _ Hplanned) as (done & _ & [Hok|Hko]).
    + destruct Hok as (first & _ & _ & _ & ->).
      eexists _, _. split; [by rewrite fmap_app, <- app_assoc|].
      apply Forall_app. split; [apply progress_shape|].
      apply Forall_singleton, createAgentMessage_shape, summary_nonempty.
    + destruct Hko as (err & name & ps & _ & ->).
      eexists _, _. split; [by rewrite fmap_app, <- app_assoc|].
      apply Forall_app. split; [apply progress_shape|].
      by apply Forall_singleton, createAgentMessage_shape.
Qed.

(** The position of a failure: the calls before it succeeded, nothing
    follows it, and the error message closes the bus. *)
Lemma execute_fault (planResponse : PlanResponse) (k : nat) (name : string)
    (ps : gmap string JSON) (err : string) :
  selectToolWithAI W <$> extractTextFromMessage (ctx_message ctx)
    = Some (inr planResponse) →
  invoked (execute W ctx) !! k = Some (name, ps) →
  executeTool W k name ps = inl err →
  ∃ done : list (string * JSON),
    length done = k ∧
    length (invoked (execute W ctx)) = S k ∧
    (∀ j tr, done !! j = Some tr →
       ∃ ps', invoked (execute W ctx) !! j = Some (tr.1, ps') ∧
         executeTool W j tr.1 ps' = inr tr.2) ∧
    events (execute W ctx) =
      (Publish <$> progress W ctx (length (normalize planResponse)) done)
      ++ [Publish
            (createAgentMessage W
               (created (length (normalize planResponse)) done)
               ("Error: " +:+ err) JNull
               (ctx_contextId ctx) (ctx_taskId ctx));
          Finished].
Proof.
  intros Hplan Hk Herr.
  destruct (execute_report _ Hplan) as (done & Hdone & Hend).
  assert (length done ≤ k)%nat as Hle.
  { destruct (decide (k < length done)%nat) as [Hlt|]; [|lia].
    destruct (lookup_lt_is_Some_2 done k Hlt) as [tr Htr].
    destruct (Hdone _ _ Htr) as (ps' & Hc & He).
    rewrite Hk in Hc. injection Hc as -> ->. congruence. }
  apply lookup_lt_Some in Hk as Hlt.
  destruct Hend as [(first & _ & _ & Hlen & _)|(err' & name' & ps' & Hcase & Hev)];
    [lia|].
  destruct Hcase as [(Hc & He & Hlen)|(_ & _ & Hnil & _)];
    [|rewrite Hnil in Hlt; simpl in Hlt; lia].
  assert (length done = k) as Hd by lia. subst k.
  rewrite Hk in Hc. injection Hc as <- <-.
  rewrite Herr in He. injection He as <-.
  exists done. by split_and!.
Qed.

End reports.

(** ** Executions, end to end *)

Section executions.
Import Executor Shape.
Context (W : World) (ctx : ExecutionContext).

(** X1.  The bus protocol of [execute].  When the text of the message
    cannot be read (the message has no parts array), which happens
    before the [try] block, nothing is called and nothing is published,
    [finished()] is not called and the promise is rejected with the
    TypeError.  On every other path there are one or more messages, then
    exactly one [finished()], and the promise is fulfilled; every message
    is an agent message tagged with the task and context ids of the
    execution, with a non-empty text fragment first and at most one data
    fragment, whose payload is truthy. *)
Theorem execution_publishes_then_finishes :
  match extractTextFromMessage (ctx_message ctx) with
  | None =>
      invoked (execute W ctx) = [] ∧ events (execute W ctx) = [] ∧
      rejected (execute W ctx) = Some no_parts
  | Some _ =>
      ∃ msgs last,
        events (execute W ctx) =
          (Publish <$> (msgs ++ [last])) ++ [Finished] ∧
        Forall (agent_message ctx) (msgs ++ [last]) ∧
        rejected (execute W ctx) = None
  end.
Proof.
  destruct (extractTextFromMessage (ctx_message ctx)) as [userMessage|]
    eqn:Htext.
  - destruct (execute_messages W ctx _ Htext) as (msgs & last & Hev & Hall).
    exists msgs, last. split_and!; [done..|].
    by destruct (execute_events W ctx _ Htext) as (_ & _ & _ & Hrej).
  - by rewrite (execute_rejects W ctx Htext).
Qed.

(** X2.  When the planner call throws, or the plan has an empty step
    list, no tool is called: the execution publishes the single message
    [Error: <reason>] and finishes. *)
Theorem planning_failure_calls_no_tool (reason : string) :
  selectToolWithAI W <$> extractTextFromMessage (ctx_message ctx)
    = Some (inl reason) ∨
  (∃ planResponse,
     selectToolWithAI W <$> extractTextFromMessage (ctx_message ctx)
       = Some (inr planResponse) ∧
     steps planResponse = Some [] ∧ reason = no_first_step) →
  invoked (execute W ctx) = [] ∧
  events (execute W ctx) =
    [Publish (createAgentMessage W 0 ("Error: " +:+ reason) JNull
                (ctx_contextId ctx) (ctx_taskId ctx));
     Finished].
Proof.
  intros [Hplan|(planResponse & Hplan & Hsteps & ->)];
    apply planner_called in Hplan as (userMessage & Htext & Hplan);
    unfold execute; rewrite Htext, Hplan; [done|].
  unfold normalize. by rewrite Hsteps.
Qed.

(** X3.  When every call of a non-empty plan succeeds, each step is
    called once, in plan order; a plan of several steps publishes one
    progress message per step; the closing message carries the summary
    text and, as data, the single result or the array of
    [{tool, result}] pairs. *)
Theorem successful_plan_is_summarised (planResponse : PlanResponse)
    (first : Step) (others : list Step) :
  selectToolWithAI W <$> extractTextFromMessage (ctx_message ctx)
    = Some (inr planResponse) →
  normalize planResponse = first :: others →
  (∀ k name ps, invoked (execute W ctx) !! k = Some (name, ps) →
     ∃ result, executeTool W k name ps = inr result) →
  ∃ done : list (string * JSON),
    length done = S (length others) ∧
    (∀ j tr, done !! j = Some tr →
       ∃ step ps,
         normalize planResponse !! j = Some step ∧ tr.1 = toolName step ∧
         invoked (execute W ctx) !! j = Some (tr.1, ps) ∧
         executeTool W j tr.1 ps = inr tr.2) ∧
    length (invoked (execute W ctx)) = S (length others) ∧
    events (execute W ctx) =
      (Publish <$> progress W ctx (S (length others)) done)
      ++ [Publish
            (createAgentMessage W (created (S (length others)) done)
               (summary (first :: others) first)
               (if bool_decide (others = [])
                then default JNull (snd <$> head done)
                else JArr (result_value <$> done))
               (ctx_contextId ctx) (ctx_taskId ctx));
          Finished].
Proof.
  intros Hplan Hsteps Hok.
  destruct (execute_report W ctx _ Hplan) as (done & Hdone & Hend).
  rewrite Hsteps in Hend. simpl in Hend.
  destruct Hend as [(first' & [= <-] & Hlen & Hinv & Hev)
                   |(err & name & ps & Hcase & _)].
  - exists done. split_and!; [done| |lia|].
    + intros j tr Htr. destruct (Hdone _ _ Htr) as (ps & Hc & He).
      destruct (invoked_lookup W ctx _ _ _ _ Hplan Hc)
        as (step & _ & Hstep & Hname & _).
      by exists step, ps.
    + rewrite Hev. do 4 f_equal.
      destruct others; simpl; repeat case_bool_decide; simplify_eq/=;
        done || lia.
  - destruct Hcase as [(Hc & He & _)|(Hnil & _)]; [|done].
    destruct (Hok _ _ _ Hc) as [result Hr]. congruence.
Qed.

End executions.

Section displays.
Import Executor Shape.
Context (W : World) (ctx : ExecutionContext).

Lemma agent_message_display (m : Message) :
  agent_message ctx m →
  ∃ text,
    text ≠ "" ∧ extractTextFromMessage m = Some text ∧
    Client.display m =
      [Client.AgentBubble text
         (head (omap data_of (default [] (parts m))))] ∧
    Client.agentMessages [m] = [m] ∧
    Client.forEach_display [m] = ([m], true).
Proof.
  intros (Hrole & _ & _ & text & Htext & Hparts). exists text.
  assert (∃ ps, parts m = Some ps ∧ omap text_of ps = [text])
    as (ps & Hps & Hom)
    by (destruct Hparts as [->|(d & _ & ->)]; by eexists).
  split_and!; [done| | | |].
  - unfold extractTextFromMessage. rewrite Hps. simpl. by rewrite Hom.
  - unfold Client.display. rewrite Hps. simpl. rewrite Hom. simpl.
    apply String.eqb_neq in Htext. by rewrite Htext.
  - unfold Client.agentMessages. by rewrite filter_cons_True.
  - simpl. by rewrite Hps.
Qed.

(** X5.  The executor and the clients agree on messages: whatever
    [execute] publishes passes the clients' role filter and is drawn as
    exactly one agent bubble, with the text [extractTextFromMessage]
    reads back from it; the display routine of [client.js] does not
    throw on it. *)
Theorem published_message_is_one_bubble (m : Message) :
  Publish m ∈ events (execute W ctx) →
  ∃ text,
    text ≠ "" ∧ extractTextFromMessage m = Some text ∧
    Client.display m =
      [Client.AgentBubble text
         (head (omap data_of (default [] (parts m))))] ∧
    Client.agentMessages [m] = [m] ∧
    Client.forEach_display [m] = ([m], true) ∧
    msg_taskId m = Some (ctx_taskId ctx) ∧
    msg_contextId m = Some (ctx_contextId ctx).
Proof.
  intros Hm.
  destruct (extractTextFromMessage (ctx_message ctx)) as [userMessage|]
    eqn:Htext;
    [|rewrite (execute_rejects W ctx Htext) in Hm;
      by apply not_elem_of_nil in Hm].
  destruct (execute_messages W ctx _ Htext) as (msgs & last & Hev & Hall).
  rewrite Hev in Hm. apply elem_of_app in Hm as [Hm|Hm].
  - apply list_elem_of_fmap in Hm as (m' & [= <-] & Hin).
    rewrite Forall_forall in Hall. pose proof (Hall _ Hin) as Hshape.
    destruct (agent_message_display _ Hshape)
      as (text & ? & ? & ? & ? & ?).
    exists text. split_and!; try done; apply Hshape.
  - by apply list_elem_of_singleton in Hm.
Qed.

End displays.

Section background.
Import Executor Shape Router.
Context (W : World) (ctx : ExecutionContext).

#[local] Instance Publish_inj : Inj (=) (=) Publish.
Proof. by intros m1 m2 [= ->]. Qed.

(** X4.  A failing tool call, seen from the router.  The [k] calls
    before it are the first [k] steps of the plan and each succeeded,
    with the result recorded in [done]; the failing call is step [k];
    no step after it is called; and the background run leaves the task
    [completed] (not [failed]), its history extended by one progress
    message per successful call (for a plan of several steps), built from
    that call's tool name and result, and by the error message. *)
Theorem failed_call_leaves_task_completed (planResponse : PlanResponse)
    (k : nat) (name : string) (ps : gmap string JSON) (err : string)
    (σ : State) (r : nat) (t : Task) :
  heap σ !! r = Some t →
  selectToolWithAI W <$> extractTextFromMessage (ctx_message ctx)
    = Some (inr planResponse) →
  invoked (execute W ctx) !! k = Some (name, ps) →
  executeTool W k name ps = inl err →
  ∃ done : list (string * JSON),
    length done = k ∧
    (∀ j tr, done !! j = Some tr →
       ∃ step ps',
         normalize planResponse !! j = Some step ∧ tr.1 = toolName step ∧
         invoked (execute W ctx) !! j = Some (tr.1, ps') ∧
         executeTool W j tr.1 ps' = inr tr.2) ∧
    (∃ step, normalize planResponse !! k = Some step ∧
       name = toolName step) ∧
    length (invoked (execute W ctx)) = S k ∧
    heap (run_job W {| job_task := r; job_context := ctx |} σ) !! r =
      Some {| task_id := task_id t; contextId := contextId t;
              status := {| state := completed; timestamp := now W σ;
                           message := None |};
              history :=
                history t
                ++ progress W ctx (length (normalize planResponse)) done
                ++ [createAgentMessage W
                      (created (length (normalize planResponse)) done)
                      ("Error: " +:+ err) JNull
                      (ctx_contextId ctx) (ctx_taskId ctx)] |}.
Proof.
  intros Ht Hplan Hk Herr.
  destruct (execute_fault W ctx _ _ _ _ _ Hplan Hk Herr)
    as (done & Hlen & Hinv & Hdone & Hev).
  destruct (planner_called W ctx _ Hplan) as (userMessage & Htext & _).
  destruct (run_job_ends_completed W ctx r σ t _ Ht Htext)
    as (msgs & last & Hev' & Hheap).
  exists done. split_and!; [done| | |done|].
  - intros j tr Htr. destruct (Hdone _ _ Htr) as (ps' & Hc & He).
    destruct (invoked_lookup W ctx _ _ _ _ Hplan Hc)
      as (step & _ & Hstep & Hname & _).
    by exists step, ps'.
  - destruct (invoked_lookup W ctx _ _ _ _ Hplan Hk)
      as (step & _ & Hstep & Hname & _).
    by exists step.
  - rewrite Hheap. do 2 f_equal.
    rewrite Hev in Hev'.
    change [Publish ?m; Finished]
      with ((Publish <$> [m]) ++ [Finished]) in Hev'.
    rewrite app_assoc, <- fmap_app in Hev'.
    apply app_inv_tail in Hev'. apply (inj (fmap Publish)) in Hev'.
    by rewrite <- Hev'.
Qed.

End background.

Section frame.
Import Executor Router.
Context (W : World).

Lemma deliver_reaches (r : nat) (evs : list BusEvent) :
  ∀ σ, reaches W σ (foldl (deliver W r) σ evs).
Proof.
  induction evs as [|ev evs IH]; intros σ; simpl; [apply rtc_refl|].
  eapply rtc_l; [apply step_bus|apply IH].
Qed.

Lemma run_job_reaches (j : Job) (σ : State) : reaches W σ (run_job W j σ).
Proof.
  unfold run_job.
  destruct (rejected (execute W (job_context j))) as [reason|].
  - eapply rtc_r; [apply deliver_reaches|apply step_rejected].
  - apply deliver_reaches.
Qed.

Lemma deliver_frame (r : nat) (evs : list BusEvent) :
  ∀ σ,
    tasks (foldl (deliver W r) σ evs) = tasks σ ∧
    uuids (foldl (deliver W r) σ evs) = uuids σ ∧
    length (heap (foldl (deliver W r) σ evs)) = length (heap σ) ∧
    ∀ r', r' ≠ r → heap (foldl (deliver W r) σ evs) !! r' = heap σ !! r'.
Proof.
  induction evs as [|ev evs IH]; intros σ; simpl; [done|].
  destruct (IH (deliver W r σ ev)) as (-> & -> & -> & Hother).
  destruct (deliver_tasks W r ev σ) as [-> ->].
  split_and!; [done..| |].
  - destruct ev; simpl; by rewrite length_alter.
  - intros r' Hr'. rewrite Hother by done. by apply deliver_other.
Qed.

(** X8.  A background run writes to one task object only: the task map,
    the identifiers drawn and every other task stay as they were, and
    its own task keeps its ids and a history that extends the old one.
    When the text of the message could be read the task ends
    [completed], without a failure reason and with a strictly longer
    history; when it could not, the promise is rejected and the router's
    [catch] handler marks the task [failed] with the TypeError's message,
    its history unchanged. *)
Theorem background_run_touches_one_task (j : Job) (σ : State) :
  tasks (run_job W j σ) = tasks σ ∧
  uuids (run_job W j σ) = uuids σ ∧
  length (heap (run_job W j σ)) = length (heap σ) ∧
  (∀ r', r' ≠ job_task j → heap (run_job W j σ) !! r' = heap σ !! r') ∧
  (∀ t, heap σ !! job_task j = Some t →
     ∃ t', heap (run_job W j σ) !! job_task j = Some t' ∧
       task_id t' = task_id t ∧ contextId t' = contextId t ∧
       history t `prefix_of` history t' ∧
       match extractTextFromMessage (ctx_message (job_context j)) with
       | Some _ =>
           state (status t') = completed ∧ message (status t') = None ∧
           (length (history t) < length (history t'))%nat
       | None =>
           status t' = {| state := failed; timestamp := now W σ;
                          message := Some no_parts |} ∧
           history t' = history t
       end).
Proof.
  destruct j as [r ctx]. simpl.
  destruct (extractTextFromMessage (ctx_message ctx)) as [userMessage|]
    eqn:Htext.
  - assert (run_job W {| job_task := r; job_context := ctx |} σ =
            foldl (deliver W r) σ (events (execute W ctx))) as Hrun.
    { unfold run_job. simpl.
      by destruct (execute_events W ctx _ Htext) as (_ & _ & _ & ->). }
    destruct (deliver_frame r (events (execute W ctx)) σ)
      as (Ht & Hu & Hl & Hother).
    rewrite <- Hrun in Ht, Hu, Hl, Hother.
    split_and!; [done..|].
    intros t Hr.
    destruct (run_job_ends_completed W ctx r σ t _ Hr Htext)
      as (msgs & last & _ & Hheap).
    eexists. split; [exact Hheap|]. simpl. split_and!; [done..| | | |].
    + by apply prefix_app_r.
    + done.
    + done.
    + rewrite !length_app. simpl. lia.
  - assert (run_job W {| job_task := r; job_context := ctx |} σ =
            on_rejected W r no_parts σ) as Hrun.
    { unfold run_job. simpl. by rewrite (execute_rejects W ctx Htext). }
    split_and!.
    + by rewrite Hrun.
    + by rewrite Hrun.
    + rewrite Hrun. simpl. by rewrite length_alter.
    + intros r' Hr'. rewrite Hrun. simpl. by apply list_lookup_alter_ne.
    + intros t Hr. eexists.
      split; [exact (run_job_ends_failed W ctx r σ t Hr Htext)|].
      simpl. by split_and!.
Qed.

End frame.

(** ** The tool registry behind the executor *)

Section registry.
Import Executor Shape.
Context (W : World) (ctx : ExecutionContext).
Context (stringify : JSON → string) (toolHandlers : gmap string MCP.Handler).
Hypothesis registry :
  ∀ k toolName args,
    callTool W k toolName args =
    MCP.callTool stringify toolHandlers k toolName args.

Lemma executeTool_unknown (k : nat) (name : string) (ps : gmap string JSON) :
  toolHandlers !! name = None →
  executeTool W k name ps =
    inl ("Tool execution failed: Tool not found: " +:+ name).
Proof.
  intros Hnone. unfold executeTool. rewrite registry. unfold MCP.callTool, MCP.Handler in *. unfold MCP.callTool. by rewrite Hnone.
Qed.

Lemma executeTool_handler (k : nat) (name : string) (ps : gmap string JSON)
    (handler : MCP.Handler) :
  toolHandlers !! name = Some handler →
  executeTool W k name ps =
    match handler k ps with
    | inl err =>
        inl ("Tool execution failed: Tool execution failed: " +:+ err)
    | inr result =>
        inr (default (JStr (MCP.render stringify result))
               (JSON_parse W (MCP.render stringify result)))
    end.
Proof.
  intros Hsome. unfold executeTool. rewrite registry.
  unfold MCP.callTool, MCP.Handler in *. rewrite Hsome.
  by destruct (handler k ps) as [err|result].
Qed.

(** X9.  With [MCPServer.callTool] as the registry: a step that names a
    tool without a handler ends the plan at that step, and the error
    message reads [Error: Tool execution failed: Tool not found:
    <name>]. *)
Theorem unknown_tool_ends_the_plan (planResponse : PlanResponse) (k : nat)
    (name : string) (ps : gmap string JSON) :
  selectToolWithAI W <$> extractTextFromMessage (ctx_message ctx)
    = Some (inr planResponse) →
  invoked (execute W ctx) !! k = Some (name, ps) →
  toolHandlers !! name = None →
  length (invoked (execute W ctx)) = S k ∧
  ∃ done : list (string * JSON),
    length done = k ∧
    events (execute W ctx) =
      (Publish <$> progress W ctx (length (normalize planResponse)) done)
      ++ [Publish
            (createAgentMessage W
               (created (length (normalize planResponse)) done)
               ("Error: Tool execution failed: Tool not found: " +:+ name)
               JNull (ctx_contextId ctx) (ctx_taskId ctx));
          Finished].
Proof.
  intros Hplan Hk Hnone.
  destruct (execute_fault W ctx _ _ _ _ _ Hplan Hk
              (executeTool_unknown k name ps Hnone))
    as (done & Hlen & Hinv & _ & Hev).
  split; [done|]. by exists done.
Qed.

(** X10.  With [MCPServer.callTool] as the registry: an error thrown by
    a handler is wrapped once by [callTool] and once by [executeTool], so
    the published text carries the prefix [Tool execution failed: ]
    twice. *)
Theorem handler_error_is_prefixed_twice (planResponse : PlanResponse)
    (k : nat) (name : string) (ps : gmap string JSON)
    (handler : MCP.Handler) (err : string) :
  selectToolWithAI W <$> extractTextFromMessage (ctx_message ctx)
    = Some (inr planResponse) →
  invoked (execute W ctx) !! k = Some (name, ps) →
  toolHandlers !! name = Some handler →
  handler k ps = inl err →
  length (invoked (execute W ctx)) = S k ∧
  ∃ done : list (string * JSON),
    length done = k ∧
    events (execute W ctx) =
      (Publish <$> progress W ctx (length (normalize planResponse)) done)
      ++ [Publish
            (createAgentMessage W
               (created (length (normalize planResponse)) done)
               ("Error: Tool execution failed: Tool execution failed: "
                  +:+ err)
               JNull (ctx_contextId ctx) (ctx_taskId ctx));
          Finished].
Proof.
  intros Hplan Hk Hsome Herr.
  pose proof (executeTool_handler k name ps handler Hsome) as He.
  rewrite Herr in He.
  destruct (execute_fault W ctx _ _ _ _ _ Hplan Hk He)
    as (done & Hlen & Hinv & _ & Hev).
  split; [done|]. by exists done.
Qed.

(** X11.  A handler's result travels as text.  A result that is no
    string comes back unchanged when [JSON.parse] inverts
    [JSON.stringify] on it; a string result comes back unchanged only
    when it is not JSON text, and is replaced by its parse otherwise. *)
Theorem tool_result_crosses_the_text_channel (k : nat) (name : string)
    (ps : gmap string JSON) (handler : MCP.Handler) (result : JSON) :
  toolHandlers !! name = Some handler →
  handler k ps = inr result →
  ((∀ s, result ≠ JStr s) →
   JSON_parse W (stringify result) = Some result →
   executeTool W k name ps = inr result) ∧
  (∀ s, result = JStr s → JSON_parse W s = None →
     executeTool W k name ps = inr result) ∧
  (∀ s v, result = JStr s → JSON_parse W s = Some v →
     executeTool W k name ps = inr v).
Proof.
  intros Hsome Hres.
  rewrite (executeTool_handler k name ps handler Hsome), Hres.
  split_and!.
  - intros Hns Hparse.
    assert (MCP.render stringify result = stringify result) as ->
      by (destruct result; try done; by destruct (Hns s)).
    by rewrite Hparse.
  - intros s -> Hparse. simpl. by rewrite Hparse.
  - intros s v -> Hparse. simpl. by rewrite Hparse.
Qed.

End registry.

Section mocks.
Import Executor.

Lemma generateMockResponse_id (uuid : nat → string) (now toolName : string)
    (params : gmap string JSON) :
  prop "id" (MCP.generateMockResponse uuid now toolName params) =
  Some (if MCP.includes "account" toolName || MCP.includes "order" toolName
           || MCP.includes "product" toolName
           || MCP.includes "creative" toolName
        then JStr (uuid 0)
        else default (JStr (uuid 0)) (params !! "id")).
Proof.
  unfold MCP.generateMockResponse.
  destruct (MCP.includes "account" toolName); [done|].
  destruct (MCP.includes "order" toolName); [done|].
  destruct (MCP.includes "product" toolName); [done|].
  destruct (MCP.includes "creative" toolName); [done|].
  simpl. rewrite !lookup_insert_ne by done.
  destruct (params !! "id") as [i|] eqn:Hid; simpl.
  - by apply lookup_union_Some_l.
  - rewrite lookup_union_r by done. by rewrite lookup_singleton_eq.
Qed.

(** X12.  Mock responses and placeholder substitution compose: after a
    mock response, a top-level sentinel of the next step becomes the
    response's [id], which is the identifier drawn first for an account,
    order, product or creative tool, and the caller's own [id] parameter
    (when given) for any other tool; a falsy [id] leaves the sentinel in
    place. *)
Theorem mock_id_feeds_next_step (uuid : nat → string) (now toolName : string)
    (params ps : gmap string JSON) (key : string) :
  ps !! key = Some (JStr PREVIOUS_RESULT_ID) →
  substitute (Some (MCP.generateMockResponse uuid now toolName params)) ps
    !! key =
  Some (let id :=
          if MCP.includes "account" toolName || MCP.includes "order" toolName
             || MCP.includes "product" toolName
             || MCP.includes "creative" toolName
          then JStr (uuid 0)
          else default (JStr (uuid 0)) (params !! "id") in
        if truthy id then id else JStr PREVIOUS_RESULT_ID).
Proof.
  intros Hkey. cbv zeta.
  pose proof (generateMockResponse_id uuid now toolName params) as Hid.
  set (response := MCP.generateMockResponse uuid now toolName params) in *.
  match type of Hid with _ = Some ?i => set (id := i) in * end.
  assert (truthy response = true) as Htruthy.
  { unfold response, MCP.generateMockResponse.
    by repeat destruct (MCP.includes _ _). }
  rewrite substitute_lookup, Hkey. unfold has_id.
  rewrite Htruthy, Hid. simpl.
  by destruct (truthy id).
Qed.

Lemma registerToolHandlers_lookup (M : MCP.Mock) (tools : list MCP.MCPTool)
    (n : string) :
  ∀ m : gmap string MCP.Handler,
    foldl (λ m tool, <[MCP.name tool := MCP.createToolHandler M tool]> m)
      m tools !! n =
    if decide (n ∈ MCP.name <$> tools)
    then Some (λ k params,
                 inr (MCP.generateMockResponse (MCP.draw M k)
                        (MCP.at_call M k) n params))
    else m !! n.
Proof.
  induction tools as [|tool tools IH]; intros m; simpl; [done|].
  rewrite IH. csimpl.
  destruct (decide (n ∈ MCP.name <$> tools)) as [Hin|Hout].
  - rewrite decide_True; [done|]. by apply list_elem_of_further.
  - destruct (decide (n = MCP.name tool)) as [->|Hne].
    + rewrite decide_True by apply list_elem_of_here.
      by rewrite lookup_insert_eq.
    + rewrite decide_False; [by rewrite lookup_insert_ne|].
      rewrite elem_of_cons. by intros [?|?].
Qed.

(** X13.  The registry built by [registerToolHandlers]: [callTool]
    answers for exactly the names in the tool list, never throws for
    them, and the answer depends on the name alone, whatever else the
    list holds under that name. *)
Theorem registered_tools_always_answer (stringify : JSON → string)
    (M : MCP.Mock) (tools : list MCP.MCPTool) (k : nat) (n : string)
    (args : gmap string JSON) :
  MCP.callTool stringify (MCP.registerToolHandlers M tools) k n args =
  if decide (n ∈ MCP.name <$> tools)
  then inr {| content :=
                [ {| type := "text";
                     text :=
                       MCP.render stringify
                         (MCP.generateMockResponse (MCP.draw M k)
                            (MCP.at_call M k) n args) |} ] |}
  else inl ("Tool not found: " +:+ n).
Proof.
  unfold MCP.callTool, MCP.registerToolHandlers.
  rewrite registerToolHandlers_lookup.
  by destruct (decide (n ∈ MCP.name <$> tools)).
Qed.

End mocks.

(** ** Responses, permanence of tasks, and the two transports *)

Section responses.
Import Router.
Context (W : World).

Lemma handleGetTaskRPC_found (ps : option Params) (σ : State) (r : nat) :
  handleGetTaskRPC ps σ = inr r →
  ∃ p taskId,
    ps = Some p ∧ p_taskId p = Some taskId ∧ taskId ≠ "" ∧
    tasks σ !! taskId = Some r.
Proof.
  unfold handleGetTaskRPC. destruct ps as [p|]; [|done].
  destruct (truthy_str (p_taskId p)) eqn:Hid; [|done].
  apply truthy_str_spec in Hid as (taskId & Hp & Hne). rewrite Hp. simpl.
  destruct (tasks σ !! taskId) as [r'|] eqn:Hr; [|done].
  intros [= <-]. by exists p, taskId.
Qed.

Lemma handleCancelTask_found (ps : option Params) (σ σ' : State) (r : nat) :
  handleCancelTask W ps σ = (inr r, σ') →
  ∃ p taskId,
    ps = Some p ∧ p_taskId p = Some taskId ∧ taskId ≠ "" ∧
    tasks σ !! taskId = Some r ∧
    σ' = tick (with_heap
                 (alter (set_status {| state := canceled;
                                       timestamp := now W σ;
                                       message := None |}) r) σ).
Proof.
  unfold handleCancelTask. destruct ps as [p|]; [|done].
  destruct (truthy_str (p_taskId p)) eqn:Hid; [|done].
  apply truthy_str_spec in Hid as (taskId & Hp & Hne). rewrite Hp. simpl.
  destruct (tasks σ !! taskId) as [r'|] eqn:Hr; [|done].
  intros [= <- <-]. by exists p, taskId.
Qed.

Lemma handleCancelTask_rejects (ps : option Params) (σ σ' : State)
    (e : Thrown) :
  handleCancelTask W ps σ = (inl e, σ') → σ' = σ.
Proof.
  unfold handleCancelTask. destruct ps as [p|]; [|by intros [= _ <-]].
  destruct (truthy_str (p_taskId p)); [|by intros [= _ <-]].
  destruct (tasks σ !! _); [done|by intros [= _ <-]].
Qed.

(** X14.  A JSON-RPC request answered with an error has no effect: the
    router's memory is unchanged, no execution is started and the
    response has no result. *)
Theorem error_response_changes_nothing (req : JSONRPCRequest) (σ : State)
    (e : Thrown) :
  error (handleJSONRPC W req σ).1.1 = Some e →
  (handleJSONRPC W req σ).1.2 = σ ∧
  (handleJSONRPC W req σ).2 = None ∧
  result (handleJSONRPC W req σ).1.1 = None.
Proof.
  unfold handleJSONRPC.
  destruct (is_version_2 (jsonrpc req)); [|done].
  destruct (dispatch (method req)).
  - destruct (handleSendMessage W (params req) σ) as [[e'|j] σ'] eqn:Hs;
      [|done].
    apply handleSendMessage_rejects in Hs as ->. done.
  - by destruct (handleGetTaskRPC (params req) σ).
  - destruct (handleCancelTask W (params req) σ) as [[e'|r] σ'] eqn:Hc;
      [|done].
    apply handleCancelTask_rejects in Hc as ->. done.
  - done.
Qed.

(** X15.  In every state the server can reach, a response has either
    an error and no result, or a result, status 200 and no error; the
    task returned is stored under its id, and for the get and cancel
    methods it is the task with the requested id. *)
Theorem response_is_result_or_error (req : JSONRPCRequest) (σ : State) :
  reachable W σ →
  match error (handleJSONRPC W req σ).1.1 with
  | Some _ => result (handleJSONRPC W req σ).1.1 = None
  | None =>
      ∃ t,
        result (handleJSONRPC W req σ).1.1 = Some t ∧
        http_status (handleJSONRPC W req σ).1.1 = 200 ∧
        tasks (handleJSONRPC W req σ).1.2 !! task_id t ≠ None ∧
        (dispatch (method req) ≠ SendMessage →
         ∃ p, params req = Some p ∧ p_taskId p = Some (task_id t))
  end.
Proof.
  intros Hvalid%reachable_entries_valid. unfold handleJSONRPC.
  destruct (is_version_2 (jsonrpc req)); [|done].
  destruct (dispatch (method req)) eqn:Hd.
  - destruct (params req) as [p|]; [|done]. simpl.
    destruct (p_message p) as [m|] eqn:Hm; [|done]. simpl.
    eexists. split; [by apply list_lookup_middle|]. simpl.
    split_and!; [done| |done]. by rewrite lookup_insert_eq.
  - destruct (handleGetTaskRPC (params req) σ) as [e|r] eqn:Hg; [done|].
    apply handleGetTaskRPC_found in Hg as (p & taskId & Hp & Hid & _ & Hr).
    destruct (Hvalid _ _ Hr) as (t & Ht & <-). simpl.
    exists t. split_and!; [done|done|by rewrite Hr|]. intros _. by exists p.
  - destruct (handleCancelTask W (params req) σ) as [[e|r] σ'] eqn:Hc;
      [done|].
    apply handleCancelTask_found in Hc as (p & taskId & Hp & Hid & _ & Hr & ->).
    destruct (Hvalid _ _ Hr) as (t & Ht & <-). simpl.
    eexists. split; [by rewrite list_lookup_alter_eq, Ht|]. simpl.
    split_and!; [done|by rewrite Hr|]. intros _. by exists p.
  - done.
Qed.

End responses.

Section permanence.
Import Router.
Context (W : World).
Hypothesis uuidv4_inj : ∀ i k, uuidv4 W i = uuidv4 W k → i = k.

Lemma step_keeps_entry (σ σ' : State) (taskId : string) (r : nat) :
  step W σ σ' → ids_drawn W σ →
  tasks σ !! taskId = Some r → tasks σ' !! taskId = Some r.
Proof.
  intros Hstep Hdrawn Hr. destruct Hstep as [req σ|r' ev σ|r' reason σ].
  - unfold handleJSONRPC.
    destruct (is_version_2 (jsonrpc req)); [|done].
    destruct (dispatch (method req)).
    + destruct (params req) as [p|]; [|done]. simpl.
      destruct (p_message p) as [m|]; [|done]. simpl.
      rewrite lookup_insert_ne; [done|]. intros <-.
      destruct (Hdrawn _ _ Hr) as (k & Hk & Heq).
      apply uuidv4_inj in Heq. lia.
    + by destruct (handleGetTaskRPC (params req) σ).
    + pose proof (handleCancelTask_frame W (params req) σ) as [Ht _].
      destruct (handleCancelTask W (params req) σ) as [[e|r''] σ'];
        simpl in *; by rewrite Ht.
    + done.
  - by destruct (deliver_tasks W r' ev σ) as [-> _].
  - done.
Qed.

Lemma reaches_keeps_entry (σ σ' : State) (taskId : string) (r : nat) :
  reaches W σ σ' → ids_drawn W σ →
  tasks σ !! taskId = Some r → tasks σ' !! taskId = Some r.
Proof.
  induction 1 as [σ|σ σ1 σ2 Hstep _ IH]; [done|]. intros Hdrawn Hr.
  apply IH; [by eapply step_ids_drawn|by eapply step_keeps_entry].
Qed.

(** X16.  Send then get: when the identifier generator never repeats,
    the task created by a send-message can be fetched under its id after
    any further activity of the server; the fetch changes nothing and
    returns the same task object, with its ids and a history that starts
    with the message sent. *)
Theorem sent_task_stays_fetchable (σ σ1 σ2 : State) (p : Params)
    (j : Job) (i : option JSON) :
  reachable W σ →
  handleSendMessage W (Some p) σ = (inr j, σ1) →
  reaches W σ1 σ2 →
  ctx_taskId (job_context j) ≠ "" →
  let get :=
    {| jsonrpc := Some (JStr "2.0"); method := Some "tasks/get";
       params := Some {| p_message := None; p_contextId := None;
                         p_taskId := Some (ctx_taskId (job_context j)) |};
       req_id := i |} in
  (handleJSONRPC W get σ2).1.2 = σ2 ∧
  ∃ t,
    result (handleJSONRPC W get σ2).1.1 = Some t ∧
    error (handleJSONRPC W get σ2).1.1 = None ∧
    heap σ2 !! job_task j = Some t ∧
    task_id t = ctx_taskId (job_context j) ∧
    contextId t = ctx_contextId (job_context j) ∧
    [ctx_message (job_context j)] `prefix_of` history t.
Proof.
  intros Hσ Hsend Hreach Hne get.
  pose proof (reachable_ids_drawn W σ Hσ) as Hdrawn.
  pose proof (handleSendMessage_ids_drawn W (Some p) σ Hdrawn) as Hdrawn1.
  destruct (p_message p) as [m|] eqn:Hm;
    [|by unfold handleSendMessage in Hsend; rewrite Hm in Hsend].
  rewrite (handleSendMessage_accepts W p m σ Hm) in Hsend, Hdrawn1.
  injection Hsend as <- <-. simpl in *.
  set (task := {| task_id := uuidv4 W (uuids σ); contextId := _;
                  status := _; history := [m] |}) in *.
  set (σ1 := {| heap := heap σ ++ [task]; tasks := _; uuids := _;
                clock := S (clock σ) |}) in *.
  assert (tasks σ2 !! uuidv4 W (uuids σ) = Some (length (heap σ))) as Hentry.
  { eapply reaches_keeps_entry; [done..|]. simpl. by rewrite lookup_insert_eq. }
  destruct (reaches_grows W σ1 σ2 Hreach (length (heap σ)) task)
    as (t & Ht & Hid & Hctx & Hhist); [by apply list_lookup_middle|].
  unfold handleJSONRPC, get. simpl. unfold handleGetTaskRPC. simpl.
  apply String.eqb_neq in Hne. rewrite Hne. simpl. rewrite Hentry. simpl.
  split; [done|]. exists t. by split_and!.
Qed.

End permanence.

Section transports.
Import Router.
Context (W : World).

(** X19.  The REST handlers for get and cancel agree with the JSON-RPC
    methods on a non-empty task id: same task returned, same memory
    afterwards, and 404 exactly when JSON-RPC answers [Task not
    found]. *)
Theorem rest_agrees_with_rpc_on_tasks (taskId : string) (σ : State)
    (i : option JSON) :
  taskId ≠ "" →
  let ask meth :=
    {| jsonrpc := Some (JStr "2.0"); method := Some meth;
       params := Some {| p_message := None; p_contextId := None;
                         p_taskId := Some taskId |};
       req_id := i |} in
  Rest.task (Rest.handleRESTGetTask taskId σ)
    = result (handleJSONRPC W (ask "getTask") σ).1.1 ∧
  (Rest.status_code (Rest.handleRESTGetTask taskId σ) = 404 ↔
   error (handleJSONRPC W (ask "getTask") σ).1.1 =
     Some (RPCError (-32000) ("Task not found: " +:+ taskId))) ∧
  (Rest.handleRESTCancelTask W taskId σ).2
    = (handleJSONRPC W (ask "cancelTask") σ).1.2 ∧
  Rest.task (Rest.handleRESTCancelTask W taskId σ).1
    = result (handleJSONRPC W (ask "cancelTask") σ).1.1 ∧
  (Rest.status_code (Rest.handleRESTCancelTask W taskId σ).1 = 404 ↔
   error (handleJSONRPC W (ask "cancelTask") σ).1.1 =
     Some (RPCError (-32000) ("Task not found: " +:+ taskId))).
Proof.
  intros Hne%String.eqb_neq ask.
  unfold handleJSONRPC, Rest.handleRESTGetTask, Rest.handleRESTCancelTask,
    handleGetTaskRPC, handleCancelTask, ask. simpl. rewrite Hne. simpl.
  destruct (tasks σ !! taskId) as [r|]; simpl; by split_and!.
Qed.

(** X20.  The REST send-message has the effect of the JSON-RPC method
    and returns the same task; its error text is [String(error)] of what
    the handler threw, so a body without [message] is answered with 400
    and the text [[object Object]]. *)
Theorem rest_send_agrees_with_rpc (body : option Params) (σ : State)
    (i : option JSON) :
  let send :=
    {| jsonrpc := Some (JStr "2.0"); method := Some "message/send";
       params := body; req_id := i |} in
  (Rest.handleRESTSendMessage W body σ).1.2
    = (handleJSONRPC W send σ).1.2 ∧
  (Rest.handleRESTSendMessage W body σ).2 = (handleJSONRPC W send σ).2 ∧
  Rest.task (Rest.handleRESTSendMessage W body σ).1.1
    = result (handleJSONRPC W send σ).1.1 ∧
  Rest.error_text (Rest.handleRESTSendMessage W body σ).1.1
    = Rest.describe <$> error (handleJSONRPC W send σ).1.1 ∧
  (∀ p, body = Some p → p_message p = None →
     Rest.handleRESTSendMessage W body σ =
     ({| Rest.status_code := 400; Rest.task := None;
         Rest.error_text := Some "[object Object]" |}, σ, None)).
Proof.
  intros send.
  unfold handleJSONRPC, Rest.handleRESTSendMessage, send. simpl.
  split_and!;
    try by destruct (handleSendMessage W body σ) as [[e|j] σ'].
  intros p -> Hm. unfold handleSendMessage. by rewrite Hm.
Qed.

End transports.

(** ** Polling sessions, the interval loop, stored tasks, cancellation *)

Section sessions.
Import Client.

Lemma poll_timed_out (fetch : nat → Fetched) (attempts shown : nat)
    (existing : option Task) :
  (timed_out (poll fetch attempts shown existing) = true ↔
   ∀ k, (attempts ≤ k < maxAttempts)%nat →
     ∃ t, fetch k = Got t ∧ state (status t) = working) ∧
  (timed_out (poll fetch attempts shown existing) = true →
   fetches (poll fetch attempts shown existing)
     = (maxAttempts - attempts)%nat).
Proof.
  funelim (poll fetch attempts shown existing); simpl.
  - split; [|lia]. split; [|done]. intros _ k Hk. lia.
  - split; [|done]. split; [done|]. intros Hall.
    destruct (Hall attempts) as (t & Ht & _); [lia|congruence].
  - match goal with E : fetch _ = Got _ |- _ => rename E into Hf end.
    match goal with E : state _ = working |- _ => rename E into Hw end.
    destruct H as [[IH1 IH2] IH3]. split; [split|].
    + intros Hto k Hk. destruct (decide (k = attempts)) as [->|Hne].
      * by exists task.
      * apply IH1; [done|lia].
    + intros Hall. apply IH2. intros k Hk. apply Hall. lia.
    + intros Hto. rewrite (IH3 Hto). lia.
  - split; [|done]. split; [done|]. intros Hall.
    destruct (Hall attempts) as (t & Ht & Hs); [lia|]. congruence.
  - split; [|done]. split; [done|]. intros Hall.
    destruct (Hall attempts) as (t & Ht & Hs); [lia|]. congruence.
  - split; [|done]. split; [done|]. intros Hall.
    destruct (Hall attempts) as (t & Ht & Hs); [lia|]. congruence.
Qed.

(** X21.  [pollTask] makes at most 30 requests, and it ends on its
    attempt bound exactly when each of the first 30 fetches returned a
    [working] task. *)
Theorem polling_times_out_after_thirty_working_fetches
    (fetch : nat → Fetched) (existing : option Task) :
  (fetches (pollTask fetch existing) ≤ 30)%nat ∧
  (timed_out (pollTask fetch existing) = true ↔
   ∀ k, (k < 30)%nat → ∃ t, fetch k = Got t ∧ state (status t) = working) ∧
  (timed_out (pollTask fetch existing) = true →
   fetches (pollTask fetch existing) = 30).
Proof.
  unfold pollTask.
  pose proof (poll_bounded fetch 0
                (length (agentMessages (known existing))) existing) as Hb.
  destruct (poll_timed_out fetch 0
              (length (agentMessages (known existing))) existing)
    as [Hiff Hlen].
  unfold maxAttempts in *. split_and!; [lia| |].
  - rewrite Hiff. split; intros Hall k Hk; apply Hall; lia.
  - intros Hto. rewrite (Hlen Hto). lia.
Qed.

End sessions.

Section interval.
Import Client.
Context (fetch : nat → Fetched).

Lemma elapse_disarmed (n : nat) (p : Polling) :
  armed p = false → elapse fetch n p = p.
Proof. intros Hp. destruct n; simpl; [done|]. by rewrite Hp. Qed.

Lemma forEach_display_prefix (l : list Message) :
  (forEach_display l).1 `prefix_of` l.
Proof.
  induction l as [|msg l IH]; simpl; [done|].
  destruct (parts msg); simpl; [by apply prefix_cons|apply prefix_nil].
Qed.











End interval.

Section stored_tasks.
Import Client.

Lemma handled_again (again : nat → Fetched) (tasks : gmap string Task)
    (task t : Task) (s : Session) :
  stored s = Some t → task_id t = task_id task →
  state (status t) ≠ working →
  emitted (App.handleTask again (App.remember tasks task s) t) = [].
Proof.
  intros Hstored Hid Hstate. unfold App.remember.
  rewrite Hstored. simpl.
  rewrite <- Hid, lookup_insert_eq. simpl.
  rewrite bool_decide_eq_false_2 by done. simpl.
  unfold newMessages. rewrite bool_decide_eq_false_2 by lia. done.
Qed.

(** X26.  [handleTask] of [app.js] compares with the task it has stored
    under the same id, whose history the handled one extends.  For a
    task that is not [working] it makes no request, stores the task and
    shows exactly its agent messages beyond the stored ones.  For a
    [working] task it polls: after [k] working fetches and the fetch
    that delivers [last], on which the session ends, it has stored
    [last] and shown exactly the agent messages of [last] beyond the
    stored ones, with no exception for a lone agent message.  Handling
    the task it ended on a second time shows nothing. *)
Theorem app_shows_only_unseen_messages (fetch : nat → Fetched)
    (tasks : gmap string Task) (task : Task) :
  known (tasks !! task_id task) `prefix_of` history task →
  (∀ j t, fetch j = Got t → history task `prefix_of` history t) →
  (∀ i j t t', (i ≤ j)%nat → fetch i = Got t → fetch j = Got t' →
     history t `prefix_of` history t') →
  (state (status task) ≠ working →
   fetches (App.handleTask fetch tasks task) = 0 ∧
   stored (App.handleTask fetch tasks task) = Some task ∧
   agentMessages (history task) =
     agentMessages (known (tasks !! task_id task)) ++
     emitted (App.handleTask fetch tasks task) ∧
   ∀ again,
     emitted
       (App.handleTask again
          (App.remember tasks task (App.handleTask fetch tasks task)) task)
     = []) ∧
  (state (status task) = working →
   ∀ (k : nat) (last : Task),
     (k < 30)%nat →
     (∀ i, (i < k)%nat →
        ∃ t, fetch i = Got t ∧ state (status t) = working) →
     fetch k = Got last →
     state (status last) ≠ working ∨ k = 29 ∨
       (∃ reason, fetch (S k) = Thrown reason) →
     stored (App.handleTask fetch tasks task) = Some last ∧
     (S k ≤ fetches (App.handleTask fetch tasks task) ≤ S (S k))%nat ∧
     agentMessages (history last) =
       agentMessages (known (tasks !! task_id task)) ++
       emitted (App.handleTask fetch tasks task) ∧
     (task_id last = task_id task → state (status last) ≠ working →
      ∀ again,
        emitted
          (App.handleTask again
             (App.remember tasks task (App.handleTask fetch tasks task))
             last)
        = [])).
Proof.
  intros Hold Hfirst Hchain.
  destruct (newMessages_suffix _ task Hold) as [Hs Hn].
  split.
  - intros Hstate.
    assert (stored (App.handleTask fetch tasks task) = Some task) as Hst.
    { unfold App.handleTask. simpl. by rewrite bool_decide_eq_false_2. }
    split_and!; [| done | |].
    + unfold App.handleTask. simpl. by rewrite bool_decide_eq_false_2.
    + unfold App.handleTask. simpl. rewrite bool_decide_eq_false_2 by done.
      simpl. by rewrite app_nil_r.
    + intros again. by apply handled_again.
  - intros Hstate k last Hk Hw Hlast Hend.
    assert (state (status last) ≠ working ∨ S (0 + k) = maxAttempts ∨
            (∃ reason, fetch (S (0 + k)) = Thrown reason)) as Hend'.
    { unfold maxAttempts. simpl.
      destruct Hend as [?|[Hk29|?]];
        [by left|right; left; lia|by right; right]. }
    destruct (poll_session fetch k 0
                (length (agentMessages (known (Some task)))) (Some task) last
                eq_refl (λ j t _, Hfirst j t) Hchain Hk Hw Hlast Hend')
      as (Hf & _ & Hstored & Hall).
    fold (pollTask fetch (Some task)) in Hf, Hstored, Hall.
    assert (stored (App.handleTask fetch tasks task) = Some last) as Hst.
    { unfold App.handleTask. simpl. by rewrite bool_decide_eq_true_2. }
    split_and!; [done| | | |].
    + unfold App.handleTask. simpl. rewrite bool_decide_eq_true_2 by done.
      lia.
    + unfold App.handleTask. simpl. rewrite bool_decide_eq_true_2 by done.
      lia.
    + unfold App.handleTask. simpl. rewrite bool_decide_eq_true_2 by done.
      simpl in Hall. by rewrite Hall, Hs, app_assoc.
    + intros Hid Hnw again. by apply handled_again.
Qed.

End stored_tasks.

Section cancellation.
Import SDK.

(** X27.  [cancelTask] of the SDK executor: it publishes its message and
    finishes only for a task in [activeTasks], removes that task and no
    other, and does nothing when repeated or when called after the
    execution left the set. *)
Theorem cancel_is_effective_once (W : World) (k k' : nat) (taskId : string)
    (activeTasks : gset string) :
  (taskId ∈ activeTasks →
   (cancelTask W k taskId activeTasks).1 =
     [Publish (createAgentMessage W k "Task has been canceled" JNull ""
                 taskId);
      Finished]) ∧
  (taskId ∉ activeTasks →
   cancelTask W k taskId activeTasks = ([], activeTasks)) ∧
  (taskId ∉ snd (cancelTask W k taskId activeTasks)) ∧
  (cancelTask W k' taskId (cancelTask W k taskId activeTasks).2).1 = [] ∧
  (cancelTask W k taskId (leave taskId (enter taskId activeTasks))).1 = [] ∧
  (∀ other, other ≠ taskId →
     (other ∈ (cancelTask W k taskId activeTasks).2 ↔ other ∈ activeTasks)).
Proof.
  assert (∀ k X, taskId ∉ X → cancelTask W k taskId X = ([], X)) as Hout.
  { intros k0 X HX. unfold cancelTask. by rewrite bool_decide_eq_false_2. }
  assert (taskId ∉ snd (cancelTask W k taskId activeTasks)) as Hgone.
  { unfold cancelTask, leave. case_bool_decide; simpl; [|done].
    intros [_ Hn]%elem_of_difference. apply Hn. by apply elem_of_singleton. }
  split_and!.
  - intros Hin. unfold cancelTask. by rewrite bool_decide_eq_true_2.
  - apply Hout.
  - done.
  - by rewrite Hout.
  - rewrite Hout; [done|]. unfold leave.
    intros [_ Hn]%elem_of_difference. apply Hn. by apply elem_of_singleton.
  - intros other Hne. unfold cancelTask, leave.
    case_bool_decide; simpl; [|done].
    rewrite elem_of_difference, elem_of_singleton.
    split; [by intros [? _]|by intros ?; split].
Qed.

End cancellation.

(** ** The order of calls and of messages; task objects *)

Section order.
Import Executor Shape.
Context (W : World) (ctx : ExecutionContext).

Lemma trace_names (rest : list Step) :
  ∀ (c : nat) (previousResult : option JSON),
    (trace W c rest previousResult).*1 `prefix_of` toolName <$> rest.
Proof.
  induction rest as [|step rest IH]; intros c prev; simpl; [done|].
  apply prefix_cons.
  destruct (executeTool W c (toolName step) _); [apply prefix_nil|apply IH].
Qed.

(** X6.  The tools an execution calls are an initial segment of the
    plan, in plan order: nothing outside the plan, nothing twice, nothing
    skipped; none at all when planning failed or the text of the message
    could not be read. *)
Theorem only_planned_tools_are_called :
  (invoked (execute W ctx)).*1 `prefix_of`
  match selectToolWithAI W <$> extractTextFromMessage (ctx_message ctx) with
  | Some (inr planResponse) => toolName <$> normalize planResponse
  | _ => []
  end.
Proof.
  destruct (extractTextFromMessage (ctx_message ctx)) as [userMessage|]
    eqn:Htext; simpl; [|by rewrite (execute_rejects W ctx Htext)].
  destruct (selectToolWithAI W userMessage) as [err|planResponse] eqn:Hplan.
  - unfold execute. by rewrite Htext, Hplan.
  - rewrite (execute_invoked W ctx planResponse);
      [apply trace_names|by rewrite Htext; simpl; rewrite Hplan].
Qed.

Lemma progress_ids (n : nat) (done : list (string * JSON)) :
  messageId <$> progress W ctx n done =
  newMessageId W <$> seq 0 (created n done).
Proof.
  unfold progress, created. destruct (bool_decide (1 < n)); [|done].
  apply list_eq. intros i.
  rewrite !list_lookup_fmap, list_lookup_imap.
  destruct (done !! i) as [tr|] eqn:Hi; simpl.
  - apply lookup_lt_Some in Hi. by rewrite lookup_seq_lt.
  - apply lookup_ge_None in Hi. by rewrite lookup_seq_ge.
Qed.

Lemma progress_length (n : nat) (done : list (string * JSON)) :
  length (progress W ctx n done) = created n done.
Proof.
  unfold progress, created. destruct (bool_decide (1 < n)); [|done].
  by rewrite length_imap.
Qed.

(** X7.  The messages of an execution take the identifiers drawn for
    them in publication order, so they are pairwise distinct whenever the
    identifier source does not repeat.  They are followed by
    [finished()], unless the text of the message could not be read, in
    which case there is no message at all. *)
Theorem message_ids_follow_creation_order :
  ∃ msgs,
    events (execute W ctx) =
      (Publish <$> msgs) ++
      (if extractTextFromMessage (ctx_message ctx) is Some _
       then [Finished] else []) ∧
    (extractTextFromMessage (ctx_message ctx) = None → msgs = []) ∧
    messageId <$> msgs = newMessageId W <$> seq 0 (length msgs) ∧
    ((∀ i k, newMessageId W i = newMessageId W k → i = k) → NoDup msgs).
Proof.
  assert (∃ msgs,
            events (execute W ctx) =
              (Publish <$> msgs) ++
              (if extractTextFromMessage (ctx_message ctx) is Some _
               then [Finished] else []) ∧
            (extractTextFromMessage (ctx_message ctx) = None → msgs = []) ∧
            messageId <$> msgs = newMessageId W <$> seq 0 (length msgs))
    as (msgs & Hev & Hnone & Hids).
  { assert (∀ n done text data,
              messageId <$>
                (progress W ctx n done ++
                 [createAgentMessage W (created n done) text data
                    (ctx_contextId ctx) (ctx_taskId ctx)]) =
              newMessageId W <$>
                seq 0 (length (progress W ctx n done ++
                         [createAgentMessage W (created n done) text data
                            (ctx_contextId ctx) (ctx_taskId ctx)])))
      as Hclosed.
    { intros n done text data.
      rewrite length_app, progress_length. simpl.
      rewrite Nat.add_1_r, seq_S, !fmap_app, progress_ids. done. }
    destruct (extractTextFromMessage (ctx_message ctx)) as [userMessage|]
      eqn:Htext;
      [|exists []; by rewrite (execute_rejects W ctx Htext)].
    destruct (selectToolWithAI W userMessage)
      as [err|planResponse] eqn:Hplan.
    - unfold execute. rewrite Htext, Hplan. by eexists [_].
    - assert (selectToolWithAI W <$> extractTextFromMessage (ctx_message ctx)
              = Some (inr planResponse)) as Hplanned
        by (by rewrite Htext; simpl; rewrite Hplan).
      destruct (execute_report W ctx _ Hplanned)
        as (made & _ & [(first & _ & _ & _ & ->)|(err & name & ps & _ & ->)]);
        eexists (_ ++ [_]);
        (split; [by rewrite fmap_app, <- app_assoc
                |split; [done|apply Hclosed]]). }
  exists msgs. split_and!; [done..|].
  intros Hinj. apply (NoDup_fmap_1 messageId). rewrite Hids.
  apply NoDup_fmap_2; [|apply NoDup_seq]. intros i k. apply Hinj.
Qed.

End order.

Section objects.
Import Router.

(** X17.  In every reachable state, two entries of the task map that
    name the same task object are one entry: a task object is stored
    under its own id only. *)
Theorem task_ids_never_share_a_task (W : World) (σ : State)
    (taskId taskId' : string) (r : nat) :
  reachable W σ →
  tasks σ !! taskId = Some r → tasks σ !! taskId' = Some r →
  taskId = taskId' ∧ ∃ t, heap σ !! r = Some t ∧ task_id t = taskId.
Proof.
  intros Hvalid%reachable_entries_valid Ha Hb.
  destruct (Hvalid _ _ Ha) as (t & Ht & <-).
  destruct (Hvalid _ _ Hb) as (t' & Ht' & <-).
  rewrite Ht in Ht'. injection Ht' as <-. split; [done|]. by exists t.
Qed.

End objects.

(** ** Further statements at concrete inputs *)

Section more_instances.
Import Executor Shape Router Examples.

Lemma planning_failure_calls_no_tool_witness :
  invoked (execute world (context "gibberish")) = [] ∧
  events (execute world (context "gibberish")) =
    [Publish (createAgentMessage world 0 ("Error: " +:+ "No response from AI")
                JNull "uuid-1" "uuid-0");
     Finished].
Proof.
  apply (planning_failure_calls_no_tool world (context "gibberish")
           "No response from AI").
  left. reflexivity.
Defined.

Lemma successful_plan_is_summarised_witness :
  ∃ done : list (string * JSON),
    length done = 2 ∧
    (∀ j tr, done !! j = Some tr →
       ∃ step ps,
         normalize account_then_order !! j = Some step ∧
         tr.1 = toolName step ∧
         invoked (execute world (context "account then order")) !! j
           = Some (tr.1, ps) ∧
         executeTool world j tr.1 ps = inr tr.2) ∧
    length (invoked (execute world (context "account then order"))) = 2 ∧
    events (execute world (context "account then order")) =
      (Publish <$> progress world (context "account then order") 2 done)
      ++ [Publish
            (createAgentMessage world (created 2 done)
               (summary
                  [call "create_account" {[ "name" := JStr "Nike" ]};
                   second_step]
                  (call "create_account" {[ "name" := JStr "Nike" ]}))
               (JArr (result_value <$> done))
               "uuid-1" "uuid-0");
          Finished].
Proof.
  apply (successful_plan_is_summarised world (context "account then order")
           account_then_order
           (call "create_account" {[ "name" := JStr "Nike" ]})
           [second_step]).
  - reflexivity.
  - reflexivity.
  - intros k name ps Hk. destruct k as [|[|k]]; vm_compute in Hk;
      [| |discriminate]; injection Hk as <- <-; eexists; vm_compute;
      reflexivity.
Defined.

Lemma failed_call_leaves_task_completed_witness :
  ∃ done : list (string * JSON),
    length done = 1 ∧
    (∀ j tr, done !! j = Some tr →
       ∃ step ps',
         normalize Samples.account_approve_order !! j = Some step ∧
         tr.1 = toolName step ∧
         invoked (execute world (context "account, approve, order")) !! j
           = Some (tr.1, ps') ∧
         executeTool world j tr.1 ps' = inr tr.2) ∧
    (∃ step, normalize Samples.account_approve_order !! 1 = Some step ∧
       "approve" = toolName step) ∧
    length (invoked (execute world (context "account, approve, order"))) = 2 ∧
    heap (run_job world
            {| job_task := 0;
               job_context := context "account, approve, order" |}
            (accepted "account, approve, order")) !! 0 =
      Some {| task_id := "uuid-0"; contextId := "uuid-1";
              status := {| state := completed; timestamp := "T1";
                           message := None |};
              history :=
                [says "account, approve, order"]
                ++ progress world (context "account, approve, order") 3 done
                ++ [createAgentMessage world (created 3 done)
                      ("Error: " +:+
                         "Tool execution failed: Tool not found: approve")
                      JNull "uuid-1" "uuid-0"] |}.
Proof.
  apply (failed_call_leaves_task_completed world
           (context "account, approve, order")
           Samples.account_approve_order
           1 "approve" ∅ "Tool execution failed: Tool not found: approve"
           (accepted "account, approve, order") 0
           (snapshot working [says "account, approve, order"]));
    reflexivity.
Defined.

Lemma published_message_is_one_bubble_witness :
  ∃ text,
    text ≠ "" ∧
    extractTextFromMessage Samples.summary_message = Some text ∧
    Client.display Samples.summary_message =
      [Client.AgentBubble text
         (head (omap data_of
                  (default [] (parts Samples.summary_message))))] ∧
    Client.agentMessages [Samples.summary_message] =
      [Samples.summary_message] ∧
    Client.forEach_display [Samples.summary_message] =
      ([Samples.summary_message], true) ∧
    msg_taskId Samples.summary_message = Some "uuid-0" ∧
    msg_contextId Samples.summary_message = Some "uuid-1".
Proof.
  apply (published_message_is_one_bubble world
           (context "Create an account for Nike") Samples.summary_message).
  vm_compute. apply list_elem_of_here.
Defined.

Lemma unknown_tool_ends_the_plan_witness :
  length (invoked (execute Samples.world (context "echo, missing, echo")))
    = 2 ∧
  ∃ done : list (string * JSON),
    length done = 1 ∧
    events (execute Samples.world (context "echo, missing, echo")) =
      (Publish <$>
         progress Samples.world (context "echo, missing, echo") 3 done)
      ++ [Publish
            (createAgentMessage Samples.world (created 3 done)
               ("Error: Tool execution failed: Tool not found: "
                  +:+ "missing")
               JNull "uuid-1" "uuid-0");
          Finished].
Proof.
  apply (unknown_tool_ends_the_plan Samples.world
           (context "echo, missing, echo") Samples.stringify
           Samples.toolHandlers (λ _ _ _, eq_refl)
           Samples.echo_missing_echo 1 "missing" ∅);
    reflexivity.
Defined.

Lemma handler_error_is_prefixed_twice_witness :
  length (invoked (execute Samples.world (context "echo, boom, echo"))) = 2 ∧
  ∃ done : list (string * JSON),
    length done = 1 ∧
    events (execute Samples.world (context "echo, boom, echo")) =
      (Publish <$>
         progress Samples.world (context "echo, boom, echo") 3 done)
      ++ [Publish
            (createAgentMessage Samples.world (created 3 done)
               ("Error: Tool execution failed: Tool execution failed: "
                  +:+ "database offline")
               JNull "uuid-1" "uuid-0");
          Finished].
Proof.
  apply (handler_error_is_prefixed_twice Samples.world
           (context "echo, boom, echo") Samples.stringify
           Samples.toolHandlers (λ _ _ _, eq_refl)
           Samples.echo_boom_echo 1 "boom" ∅
           (λ _ _, inl "database offline") "database offline");
    reflexivity.
Defined.

Lemma tool_result_crosses_the_text_channel_witness :
  executeTool Samples.world 0 "count" ∅ = inr (JNum 42) ∧
  executeTool Samples.world 0 "clock" ∅ = inr (JStr "noon") ∧
  executeTool Samples.world 0 "digits" ∅ = inr (JNum 42).
Proof.
  split_and!.
  - apply (proj1
             (tool_result_crosses_the_text_channel Samples.world
                Samples.stringify Samples.toolHandlers (λ _ _ _, eq_refl)
                0 "count" ∅ (λ _ _, inr (JNum 42)) (JNum 42)
                eq_refl eq_refl));
      [discriminate|reflexivity].
  - apply (proj1 (proj2
             (tool_result_crosses_the_text_channel Samples.world
                Samples.stringify Samples.toolHandlers (λ _ _ _, eq_refl)
                0 "clock" ∅ (λ _ _, inr (JStr "noon")) (JStr "noon")
                eq_refl eq_refl)) "noon"); reflexivity.
  - apply (proj2 (proj2
             (tool_result_crosses_the_text_channel Samples.world
                Samples.stringify Samples.toolHandlers (λ _ _ _, eq_refl)
                0 "digits" ∅ (λ _ _, inr (JStr "42")) (JStr "42")
                eq_refl eq_refl)) "42" (JNum 42)); reflexivity.
Defined.

Lemma mock_id_feeds_next_step_witness :
  substitute
    (Some (MCP.generateMockResponse (MCP.draw Samples.mock 0) "T0"
             "create_account" ∅))
    {[ "accountId" := JStr PREVIOUS_RESULT_ID ]} !! "accountId" =
  Some (JStr "id-0-0").
Proof.
  apply (mock_id_feeds_next_step (MCP.draw Samples.mock 0) "T0"
           "create_account" ∅
           {[ "accountId" := JStr PREVIOUS_RESULT_ID ]} "accountId").
  reflexivity.
Defined.

Lemma error_response_changes_nothing_witness :
  (handleJSONRPC world (about "getTask" "nope") init).1.2 = init ∧
  (handleJSONRPC world (about "getTask" "nope") init).2 = None ∧
  result (handleJSONRPC world (about "getTask" "nope") init).1.1 = None.
Proof.
  apply (error_response_changes_nothing world (about "getTask" "nope") init
           (RPCError (-32000) "Task not found: nope")).
  reflexivity.
Defined.

Lemma response_is_result_or_error_witness :
  ∃ t,
    result (handleJSONRPC world (about "getTask" "uuid-0")
              (accepted "ping")).1.1 = Some t ∧
    http_status (handleJSONRPC world (about "getTask" "uuid-0")
                   (accepted "ping")).1.1 = 200 ∧
    tasks (handleJSONRPC world (about "getTask" "uuid-0")
             (accepted "ping")).1.2 !! task_id t ≠ None ∧
    (dispatch (method (about "getTask" "uuid-0")) ≠ SendMessage →
     ∃ p, params (about "getTask" "uuid-0") = Some p ∧
       p_taskId p = Some (task_id t)).
Proof.
  apply (response_is_result_or_error world (about "getTask" "uuid-0")
           (accepted "ping")).
  apply rtc_once, step_request.
Defined.

Lemma sent_task_stays_fetchable_witness :
  let get :=
    {| jsonrpc := Some (JStr "2.0"); method := Some "tasks/get";
       params := Some {| p_message := None; p_contextId := None;
                         p_taskId := Some "uuid-0" |};
       req_id := Some (JNum 3) |} in
  (handleJSONRPC world get (settled "ping")).1.2 = settled "ping" ∧
  ∃ t,
    result (handleJSONRPC world get (settled "ping")).1.1 = Some t ∧
    error (handleJSONRPC world get (settled "ping")).1.1 = None ∧
    heap (settled "ping") !! 0 = Some t ∧
    task_id t = "uuid-0" ∧
    contextId t = "uuid-1" ∧
    [says "ping"] `prefix_of` history t.
Proof.
  apply (sent_task_stays_fetchable world world_uuids_distinct init
           (accepted "ping") (settled "ping")
           {| p_message := Some (says "ping"); p_contextId := None;
              p_taskId := None |}
           {| job_task := 0; job_context := context "ping" |}
           (Some (JNum 3))).
  - apply rtc_refl.
  - reflexivity.
  - apply (run_job_reaches world
             {| job_task := 0; job_context := context "ping" |}).
  - discriminate.
Defined.

Lemma rest_agrees_with_rpc_on_tasks_witness :
  let ask meth :=
    {| jsonrpc := Some (JStr "2.0"); method := Some meth;
       params := Some {| p_message := None; p_contextId := None;
                         p_taskId := Some "uuid-0" |};
       req_id := None |} in
  Rest.task (Rest.handleRESTGetTask "uuid-0" (settled "ping"))
    = result (handleJSONRPC world (ask "getTask") (settled "ping")).1.1 ∧
  (Rest.status_code (Rest.handleRESTGetTask "uuid-0" (settled "ping")) = 404
   ↔ error (handleJSONRPC world (ask "getTask") (settled "ping")).1.1 =
       Some (RPCError (-32000) ("Task not found: " +:+ "uuid-0"))) ∧
  (Rest.handleRESTCancelTask world "uuid-0" (settled "ping")).2
    = (handleJSONRPC world (ask "cancelTask") (settled "ping")).1.2 ∧
  Rest.task (Rest.handleRESTCancelTask world "uuid-0" (settled "ping")).1
    = result (handleJSONRPC world (ask "cancelTask") (settled "ping")).1.1 ∧
  (Rest.status_code
     (Rest.handleRESTCancelTask world "uuid-0" (settled "ping")).1 = 404
   ↔ error (handleJSONRPC world (ask "cancelTask") (settled "ping")).1.1 =
       Some (RPCError (-32000) ("Task not found: " +:+ "uuid-0"))).
Proof.
  apply (rest_agrees_with_rpc_on_tasks world "uuid-0" (settled "ping") None).
  discriminate.
Defined.

Lemma snapshots_append_only_witness :
  ∃ t t',
    heap (Samples.run "account then order" 0) !! 0 = Some t ∧
    heap (Samples.run "account then order" 1) !! 0 = Some t' ∧
    history t `prefix_of` history t'.
Proof.
  eexists _, _. split; [reflexivity|]. split; [reflexivity|].
  apply (snapshots_append_only world (Samples.run "account then order") 0)
    with (i := 0) (k := 1).
  - intros [|k].
    + apply (run_job_reaches world
               {| job_task := 0;
                  job_context := context "account then order" |}).
    + apply rtc_refl.
  - lia.
  - reflexivity.
  - reflexivity.
Defined.

Lemma task_ids_never_share_a_task_witness :
  "uuid-0" = "uuid-0" ∧
  ∃ t, heap (Examples.settled "ping") !! 0 = Some t ∧ task_id t = "uuid-0".
Proof.
  apply (task_ids_never_share_a_task Examples.world (Examples.settled "ping")
           "uuid-0" "uuid-0" 0).
  - eapply rtc_l; [apply step_request|].
    apply (run_job_reaches Examples.world
             {| job_task := 0; job_context := Examples.context "ping" |}).
  - reflexivity.
  - reflexivity.
Defined.

End more_instances.

Section client_instances.
Import Client Examples.

Lemma growing_extends (h : list Message) :
  h = [says "hello"] →
  (∀ k t, growing k = Got t → h `prefix_of` history t) ∧
  (∀ i k t t', (i ≤ k)%nat → growing i = Got t → growing k = Got t' →
     history t `prefix_of` history t').
Proof.
  intros ->. split.
  - intros k t [= <-]. simpl. by eexists.
  - intros i k t t' Hik Hi Hk. unfold growing in Hi, Hk.
    injection Hi as <-. injection Hk as <-.
    unfold snapshot. cbn [history].
    do 2 apply prefix_cons.
    replace k with (i + (k - i))%nat by lia.
    rewrite seq_app. eexists. apply (fmap_app _ (seq 1 i)).
Qed.

Lemma poll_stops_at_terminal_witness :
  fetches (poll growing 0 0 (Some first_response)) = 3 ∧
  stored (poll growing 0 0 (Some first_response)) =
    Some (snapshot completed
            (says "hello" :: ((λ i, says_agent (pretty i)) <$> seq 0 3))) ∧
  timed_out (poll growing 0 0 (Some first_response)) = false.
Proof.
  apply (poll_stops_at_terminal growing 2 0 0 (Some first_response)
           (snapshot completed
              (says "hello" :: ((λ i, says_agent (pretty i)) <$> seq 0 3)))).
  - unfold maxAttempts. lia.
  - intros i Hi. eexists. split; [reflexivity|].
    simpl. by rewrite bool_decide_eq_true_2 by lia.
  - reflexivity.
  - reflexivity.
Defined.

Lemma handleTask_emitted_witness :
  emitted (handleTask growing first_response) =
  agentMessages (known (stored (handleTask growing first_response))).
Proof.
  apply (handleTask_emitted growing first_response).
  - by right.
  - apply (growing_extends _ eq_refl).
  - apply (growing_extends _ eq_refl).
Defined.


(** A display that throws clears the interval and nothing else: on an
    agent message without parts the loop stops at its first request with
    [currentTask] still set and nothing displayed, although the task it
    fetched was [completed]. *)
Lemma throwing_display_clears_the_interval_only (n : nat) :
  elapse unreadable (S n) (startTaskPolling None) =
    {| armed := false; currentTask := true; shownAgentMessages := 0;
       requests := 1; displayed := [] |}.
Proof.
  change (elapse unreadable (S n) (startTaskPolling None))
    with (elapse unreadable n (fire unreadable (startTaskPolling None))).
  rewrite elapse_disarmed by (by vm_compute). by vm_compute.
Qed.



Lemma app_shows_only_unseen_messages_witness :
  stored (App.handleTask growing ∅ first_response) = Some final ∧
  (3 ≤ fetches (App.handleTask growing ∅ first_response) ≤ 4)%nat ∧
  agentMessages (history final) =
    agentMessages (known ((∅ : gmap string Task) !! task_id first_response))
    ++ emitted (App.handleTask growing ∅ first_response) ∧
  (task_id final = task_id first_response →
   state (status final) ≠ working →
   ∀ again,
     emitted
       (App.handleTask again
          (App.remember ∅ first_response
             (App.handleTask growing ∅ first_response)) final)
     = []).
Proof.
  apply (app_shows_only_unseen_messages growing ∅ first_response).
  - apply prefix_nil.
  - apply (growing_extends _ eq_refl).
  - apply (growing_extends _ eq_refl).
  - reflexivity.
  - lia.
  - intros i Hi. eexists. split; [reflexivity|].
    simpl. by rewrite bool_decide_eq_true_2 by lia.
  - reflexivity.
  - by left.
Defined.

End client_instances.
